(** * IMSI-CATcher: the GSM location engine of [gsmlocation.py]

    A shallow embedding of [TrianguladorGSM], [MapeadorGSM] and
    [AnalizadorGSMAvanzado], and the properties of the estimation engine
    that the specification states about them.

    Conventions of the embedding.
    - Python [float] and NumPy [float64] values are idealised as real
      numbers.  A value that a NumPy operation makes non-finite (NaN, or an
      infinity from a division by zero) is [None] of [flotante]; every
      later operation on it is [None] again, as NaN propagates.  What a
      statement says of a returned number is said up to the rounding of
      binary64; where rounding changes the outcome itself (a raised
      exception, an order between two values), the statement is about the
      calls that return, or module [Binario64] is used.
    - Python [int] is [Z]; [str] is [string]; [datetime] is the number of
      microseconds since the epoch, in [Z], and [timedelta(minutes=5)] is
      300000000.
    - [dict] and [defaultdict(list)] are [gmap string _]; a missing key of a
      [defaultdict(list)] reads as the empty list.
    - A raised exception is the [Lanza] outcome of [resultado]; a function
      of the source that can raise returns a [resultado].
    - [datetime.now()] is an input: every call of
      [procesar_medicion_celda] receives the clock reading [ahora].
    - [scipy.optimize.minimize] is outside the repository; it is a
      variable of the sections that need it.
    - Module [Binario64] embeds the radicand of [_calcular_distancia] and
      the centroid of two towers a second time, with IEEE-754 double
      arithmetic, for the properties that are about rounding. *)

From Stdlib Require Import Reals Lra Lia ZArith String.
From Stdlib Require PrimFloat.
From stdpp Require Import gmap strings list fin_maps.

(** ** Outcomes: values and raised exceptions *)

Inductive excepcion : Set :=
  | ZeroDivisionError
  | ValueError
  | TypeError.

Inductive resultado (A : Type) : Type :=
  | Devuelve (a : A)
  | Lanza (e : excepcion).

Arguments Devuelve {A} a.
Arguments Lanza {A} e.

#[global] Instance resultado_ret : MRet resultado := fun A a => Devuelve a.

#[global] Instance resultado_bind : MBind resultado :=
  fun A B k m => match m with
                 | Devuelve a => k a
                 | Lanza e => Lanza e
                 end.

#[global] Instance resultado_fmap : FMap resultado :=
  fun A B f m => match m with
                 | Devuelve a => Devuelve (f a)
                 | Lanza e => Lanza e
                 end.

(** ** Data model (the two dataclasses and a directory entry) *)

(** [CeldaGSM]; its [latitude], [longitude] and [timestamp] fields carry the
    prefix [celda_] because [UbicacionEstimada] has fields of the same
    names. *)
Record CeldaGSM : Type := {
  mcc : string;
  mnc : string;
  lac : string;
  cell_id : string;
  arfcn : Z;
  bsic : Z;
  signal_strength : Z;
  celda_latitude : R;
  celda_longitude : R;
  celda_timestamp : Z;
  tipo_celda : string
}.

(** A non-finite float is [None]. *)
Abbreviation flotante := (option R).

Record UbicacionEstimada : Type := {
  latitude : flotante;
  longitude : flotante;
  precision : flotante;
  metodo : string;
  celdas_utilizadas : list CeldaGSM;
  timestamp : Z
}.

(** An entry of [gsm_cell_database.json]: the object read as
    [ubicacion['lat']] and [ubicacion['lon']]. *)
Record Ubicacion : Type := { lat : R; lon : R }.

(** ** Floating-point helpers (idealised) *)

Definition fl_lift2 (f : R → R → R) (a b : flotante) : flotante :=
  match a, b with
  | Some x, Some y => Some (f x y)
  | _, _ => None
  end.

Definition fl_add : flotante → flotante → flotante := fl_lift2 Rplus.
Definition fl_sub : flotante → flotante → flotante := fl_lift2 Rminus.
Definition fl_mul : flotante → flotante → flotante := fl_lift2 Rmult.

(** NumPy division: a zero divisor gives an infinity or NaN (with a
    warning), that is a non-finite value.  An infinity is treated like
    NaN; the finite quotients by an infinity of IEEE-754 are not modelled.
    They need a precision of exactly -0.001 in [_combinar_resultados],
    which no estimator produces. *)
Definition fl_div (a b : flotante) : flotante :=
  match a, b with
  | Some x, Some y => if Req_dec_T y 0 then None else Some (x / y)%R
  | _, _ => None
  end.

(** [np.sum] of a float array. *)
Definition np_sum (l : list flotante) : flotante :=
  foldr fl_add (Some 0%R) l.

(** The sum of a list of reals, and of a list of Python ints. *)
Definition suma (l : list R) : R := foldr Rplus 0%R l.
Definition suma_Z (l : list Z) : Z := foldr Z.add 0%Z l.

(** [np.mean] of a list: NaN on the empty list. *)
Definition np_mean (l : list R) : flotante :=
  match l with
  | [] => None
  | _ => Some (suma l / INR (length l))%R
  end.

(** [np.sqrt]: NaN below zero (a warning, no exception). *)
Definition np_sqrt (x : flotante) : flotante :=
  match x with
  | Some r => if Rlt_dec r 0 then None else Some (sqrt r)
  | None => None
  end.

(** [np.average(a, weights=w)]: the shapes must agree; the weights are
    summed, a sum equal to zero raises [ZeroDivisionError], and the
    result is [sum(a * w) / sum(w)]. *)
Definition np_average (a w : list flotante) : resultado flotante :=
  if negb (length a =? length w) then Lanza TypeError
  else
    let scl := np_sum w in
    match scl with
    | Some s =>
        if Req_dec_T s 0 then Lanza ZeroDivisionError
        else Devuelve (fl_div (np_sum (zip_with fl_mul a w)) scl)
    | None => Devuelve (fl_div (np_sum (zip_with fl_mul a w)) scl)
    end.

(** [math.sqrt] raises [ValueError] on a negative argument. *)
Definition math_sqrt (x : R) : resultado R :=
  if Rlt_dec x 0 then Lanza ValueError else Devuelve (sqrt x).

(** [math.radians(x)] is [x * (pi / 180)]. *)
Definition math_radians (x : R) : R := (x * (PI / 180))%R.

(** [math.atan2(y, x)]. *)
Definition math_atan2 (y x : R) : R :=
  if Rlt_dec 0 x then atan (y / x)
  else if Rlt_dec x 0 then
    (if Rle_dec 0 y then atan (y / x) + PI else atan (y / x) - PI)%R
  else if Rlt_dec 0 y then (PI / 2)%R
  else if Rlt_dec y 0 then (- (PI / 2))%R
  else 0%R.

(** [math.log10], on the positive arguments the source gives it. *)
Definition math_log10 (x : R) : R := (ln x / ln 10)%R.

(** ** [TrianguladorGSM]: geodesy *)

(** The variable [a] of [_calcular_distancia]: the argument of the first
    square root; the second one receives [1 - a].  The source applies no
    clamp to either: as computed in binary64, [a] can exceed 1, and then
    [math.sqrt(1 - a)] raises (module [Binario64]). *)
Definition haversine_a (lat1 lon1 lat2 lon2 : R) : R :=
  let dlat := math_radians (lat2 - lat1) in
  let dlon := math_radians (lon2 - lon1) in
  (sin (dlat / 2) * sin (dlat / 2) +
   cos (math_radians lat1) * cos (math_radians lat2) *
   sin (dlon / 2) * sin (dlon / 2))%R.

Definition _calcular_distancia (lat1 lon1 lat2 lon2 : R) : resultado R :=
  let radio := 6371%R in
  let a := haversine_a lat1 lon1 lat2 lon2 in
  ra ← math_sqrt a;
  rb ← math_sqrt (1 - a);
  let c := (2 * math_atan2 ra rb)%R in
  mret (radio * c)%R.

Definition _modelo_propagacion_rssi (distancia : R) (rssi_referencia : Z) : R :=
  let PL0 := IZR rssi_referencia in
  let n := 3%R in
  (PL0 - 10 * n * math_log10 (Rmax (distancia * 1000) 1))%R.

Definition _rssi_a_tiempo (rssi : Z) : R :=
  Rmax (- IZR rssi / 100) (1 / 1000).

(** ** [TrianguladorGSM]: state, history and directory *)

Record TrianguladorGSM : Type := {
  estaciones_base : gmap string Ubicacion;
  historial_mediciones : gmap string (list CeldaGSM)
}.

(** The f-string [f"{celda.mcc}-{celda.mnc}-{celda.lac}-{celda.cell_id}"]. *)
Definition clave_celda (celda : CeldaGSM) : string :=
  mcc celda +:+ "-" +:+ mnc celda +:+ "-" +:+ lac celda +:+ "-" +:+ cell_id celda.

(** [append], then [pop(0)] when the list has more than 50 entries. *)
Definition agregar_medicion_celda (self : TrianguladorGSM) (celda : CeldaGSM)
  : TrianguladorGSM :=
  let clave := clave_celda celda in
  let historial := (historial_mediciones self !!! clave) ++ [celda] in
  let historial :=
    if (50 <? length historial)%nat then drop 1 historial else historial in
  {| estaciones_base := estaciones_base self;
     historial_mediciones := <[clave := historial]> (historial_mediciones self) |}.

Definition _obtener_ubicacion_celda (self : TrianguladorGSM) (celda : CeldaGSM)
  : option Ubicacion :=
  estaciones_base self !! clave_celda celda.

(** The loop that keeps the cells with a known location, in order:
    [celdas_con_ubicacion] of [triangular_ubicacion] and of
    [_estimar_ubicacion_2_celdas].  An entry of the directory is an object
    with the keys [lat] and [lon], which [if ubicacion:] takes as true. *)
Definition celdas_con_ubicacion (self : TrianguladorGSM)
    (celdas : list CeldaGSM) : list (CeldaGSM * Ubicacion) :=
  omap (λ celda, (λ ubicacion, (celda, ubicacion))
                   <$> _obtener_ubicacion_celda self celda) celdas.

(** ** [TrianguladorGSM]: the estimators *)

(** The loop [for ...: error_total += error] of both objective functions;
    an exception of one term leaves the loop. *)
Fixpoint sumar_errores {A : Type} (error : A → resultado R) (l : list A)
    (error_total : R) : resultado R :=
  match l with
  | [] => mret error_total
  | c :: l' => e ← error c; sumar_errores error l' (error_total + e)%R
  end.

(** [funcion_error] of [_triangulacion_rssi]. *)
Definition funcion_error_rssi (celdas : list (CeldaGSM * Ubicacion))
    (posicion : R * R) : resultado R :=
  let '(lat_, lon_) := posicion in
  sumar_errores
    (λ '(celda, ubicacion),
       distancia_calculada ←
         _calcular_distancia lat_ lon_ (lat ubicacion) (lon ubicacion);
       let rssi_esperado :=
         _modelo_propagacion_rssi distancia_calculada (signal_strength celda) in
       mret (Rabs (rssi_esperado - IZR (signal_strength celda))))
    celdas 0%R.

(** The list [tiempos] of [_triangulacion_toa]. *)
Definition tiempos_toa (celdas : list (CeldaGSM * Ubicacion))
  : list (R * R * R) :=
  map (λ '(celda, ubicacion),
         (lat ubicacion, lon ubicacion, _rssi_a_tiempo (signal_strength celda)))
      celdas.

(** [funcion_error] of [_triangulacion_toa]. *)
Definition funcion_error_toa (tiempos : list (R * R * R))
    (posicion : R * R) : resultado R :=
  let '(lat_, lon_) := posicion in
  sumar_errores
    (λ '(lat_bs, lon_bs, tiempo),
       distancia ← _calcular_distancia lat_ lon_ lat_bs lon_bs;
       let tiempo_calculado := (distancia / 300000)%R in
       mret (Rabs (tiempo_calculado - tiempo)))
    tiempos 0%R.

(** What [scipy.optimize.minimize] returns: the fields the source reads.
    An exception raised by the optimiser, or by the objective under it, is
    caught by the [try]/[except] of the caller, which then returns
    [None]: it is the outcome [res_success = false]. *)
Record OptimizeResult : Type := {
  res_x : flotante * flotante;
  res_fun : flotante;
  res_success : bool
}.

Abbreviation cotas := (option ((flotante * flotante) * (flotante * flotante))).

Section Estimadores.

(** [minimize(fun, x0, method='L-BFGS-B', bounds=...)]. *)
Variable minimize :
  (R * R → resultado R) → flotante * flotante → cotas → OptimizeResult.

Definition _triangulacion_rssi (celdas : list (CeldaGSM * Ubicacion))
    (ahora : Z) : option UbicacionEstimada :=
  let lat_inicial := np_mean (map (λ p, lat p.2) celdas) in
  let lon_inicial := np_mean (map (λ p, lon p.2) celdas) in
  let res :=
    minimize (funcion_error_rssi celdas) (lat_inicial, lon_inicial)
      (Some ((fl_sub lat_inicial (Some (1 / 10)%R),
              fl_add lat_inicial (Some (1 / 10)%R)),
             (fl_sub lon_inicial (Some (1 / 10)%R),
              fl_add lon_inicial (Some (1 / 10)%R)))) in
  if res_success res then
    Some {| latitude := (res_x res).1;
            longitude := (res_x res).2;
            precision := res_fun res;
            metodo := "RSSI";
            celdas_utilizadas := map fst celdas;
            timestamp := ahora |}
  else None.

Definition _triangulacion_toa (celdas : list (CeldaGSM * Ubicacion))
    (ahora : Z) : option UbicacionEstimada :=
  let tiempos := tiempos_toa celdas in
  let lat_inicial := np_mean (map (λ t, t.1.1) tiempos) in
  let lon_inicial := np_mean (map (λ t, t.1.2) tiempos) in
  let res :=
    minimize (funcion_error_toa tiempos) (lat_inicial, lon_inicial) None in
  if res_success res then
    Some {| latitude := (res_x res).1;
            longitude := (res_x res).2;
            precision := res_fun res;
            metodo := "TOA";
            celdas_utilizadas := map fst celdas;
            timestamp := ahora |}
  else None.

(** The weights of [_metodo_centroide] after "Normalizar pesos": the
    signal strengths over their sum when the sum is positive, and
    [np.ones(n) / n] otherwise.  [np.sum] adds the [int64] array modulo
    2^64: it is the sum of the strengths when the strengths and their sum
    fit in 64 bits ([pesos_en_int64]), which the statements about the
    weights assume. *)
Definition pesos_centroide (pesos : list Z) : list R :=
  if (0 <? suma_Z pesos)%Z then
    map (λ p, IZR p / IZR (suma_Z pesos))%R pesos
  else
    replicate (length pesos) (1 / INR (length pesos))%R.

Definition _metodo_centroide (celdas : list (CeldaGSM * Ubicacion))
    (ahora : Z) : resultado UbicacionEstimada :=
  let lats := map (λ p, lat p.2) celdas in
  let lons := map (λ p, lon p.2) celdas in
  let pesos := map (λ p, signal_strength p.1) celdas in
  let pesos := Some <$> pesos_centroide pesos in
  lat_centroide ← np_average (Some <$> lats) pesos;
  lon_centroide ← np_average (Some <$> lons) pesos;
  var_lat ←
    np_average
      (map (λ l, let d := fl_sub (Some l) lat_centroide in fl_mul d d) lats)
      pesos;
  var_lon ←
    np_average
      (map (λ l, let d := fl_sub (Some l) lon_centroide in fl_mul d d) lons)
      pesos;
  let precision_ := np_sqrt (fl_add var_lat var_lon) in
  mret {| latitude := lat_centroide;
          longitude := lon_centroide;
          precision := precision_;
          metodo := "CENTROIDE";
          celdas_utilizadas := map fst celdas;
          timestamp := ahora |}.

Definition _estimar_ubicacion_2_celdas (self : TrianguladorGSM)
    (celdas : list CeldaGSM) (ahora : Z)
  : resultado (option UbicacionEstimada) :=
  if (length celdas <? 2)%nat then mret None
  else
    match celdas_con_ubicacion self celdas with
    | (celda1, ubic1) :: (celda2, ubic2) :: _ =>
        let rssi_total :=
          (signal_strength celda1 + signal_strength celda2)%Z in
        let '(peso1, peso2) :=
          if (0 <? rssi_total)%Z then
            ((IZR (signal_strength celda1) / IZR rssi_total)%R,
             (IZR (signal_strength celda2) / IZR rssi_total)%R)
          else ((1 / 2)%R, (1 / 2)%R) in
        let lat_estimada := (lat ubic1 * peso1 + lat ubic2 * peso2)%R in
        let lon_estimada := (lon ubic1 * peso1 + lon ubic2 * peso2)%R in
        distancia_celdas ←
          _calcular_distancia (lat ubic1) (lon ubic1) (lat ubic2) (lon ubic2);
        let precision_ := (distancia_celdas * (1 / 2))%R in
        mret (Some {| latitude := Some lat_estimada;
                      longitude := Some lon_estimada;
                      precision := Some precision_;
                      metodo := "2_CELDAS";
                      celdas_utilizadas := celdas;
                      timestamp := ahora |})
    | _ => mret None
    end.

(** The list [pesos] of [_combinar_resultados], before and after it is
    divided by its sum. *)
Definition pesos_inversos (precisiones : list flotante) : list flotante :=
  map (λ p, fl_div (Some 1%R) (fl_add p (Some (1 / 1000)%R))) precisiones.

Definition pesos_combinacion (precisiones : list flotante) : list flotante :=
  let pesos := pesos_inversos precisiones in
  map (λ w, fl_div w (np_sum pesos)) pesos.

Definition _combinar_resultados (resultados : list UbicacionEstimada)
    (ahora : Z) : resultado UbicacionEstimada :=
  let lats := map latitude resultados in
  let lons := map longitude resultados in
  let precisiones := map precision resultados in
  let pesos := pesos_combinacion precisiones in
  lat_combinada ← np_average lats pesos;
  lon_combinada ← np_average lons pesos;
  precision_combinada ← np_average precisiones pesos;
  let todas_celdas := concat (map celdas_utilizadas resultados) in
  mret {| latitude := lat_combinada;
          longitude := lon_combinada;
          precision := precision_combinada;
          metodo := "COMBINADO";
          celdas_utilizadas := todas_celdas;
          timestamp := ahora |}.

(** [if resultado_x: resultados.append(resultado_x)]: an instance of the
    dataclass is always true. *)
Definition agregar_si (r : option UbicacionEstimada)
    (resultados : list UbicacionEstimada) : list UbicacionEstimada :=
  match r with
  | Some u => resultados ++ [u]
  | None => resultados
  end.

Definition triangular_ubicacion (self : TrianguladorGSM)
    (mediciones_actuales : list CeldaGSM) (ahora : Z)
  : resultado (option UbicacionEstimada) :=
  if (length mediciones_actuales <? 3)%nat then
    _estimar_ubicacion_2_celdas self mediciones_actuales ahora
  else
    let con_ubicacion := celdas_con_ubicacion self mediciones_actuales in
    if (length con_ubicacion <? 2)%nat then mret None
    else
      let resultados := [] in
      let resultados :=
        agregar_si (_triangulacion_rssi con_ubicacion ahora) resultados in
      let resultados :=
        agregar_si (_triangulacion_toa con_ubicacion ahora) resultados in
      resultado_centroide ← _metodo_centroide con_ubicacion ahora;
      let resultados := agregar_si (Some resultado_centroide) resultados in
      match resultados with
      | [] => mret None
      | _ => Some <$> _combinar_resultados resultados ahora
      end.

End Estimadores.

(** ** [MapeadorGSM]: trajectories *)

(** Only [trayectorias] is state that [procesar_medicion_celda] changes;
    [mapa_celdas] is never written and [triangulador] is a reference that
    the reports read. *)
Record MapeadorGSM : Type := {
  trayectorias : gmap string (list UbicacionEstimada)
}.

Definition actualizar_trayectoria (self : MapeadorGSM) (imsi : string)
    (ubicacion : UbicacionEstimada) : MapeadorGSM :=
  let trayectoria := (trayectorias self !!! imsi) ++ [ubicacion] in
  let trayectoria :=
    if (100 <? length trayectoria)%nat then drop 1 trayectoria
    else trayectoria in
  {| trayectorias := <[imsi := trayectoria]> (trayectorias self) |}.

(** ** [AnalizadorGSMAvanzado]: ingestion *)

Record AnalizadorGSMAvanzado : Type := {
  triangulador : TrianguladorGSM;
  mapeador : MapeadorGSM;
  mediciones_actuales : gmap string (list CeldaGSM);
  ubicaciones_estimadas : list UbicacionEstimada
}.

(** [timedelta(minutes=5)], in microseconds. *)
Definition cinco_minutos : Z := 300000000.

(** A measurement stays when [(ahora - celda.timestamp) <
    timedelta(minutes=5)]. *)
Definition es_reciente (ahora : Z) (celda : CeldaGSM) : Prop :=
  (ahora - celda_timestamp celda < cinco_minutos)%Z.

#[global] Instance es_reciente_dec ahora celda : Decision (es_reciente ahora celda).
Proof. unfold es_reciente. apply _. Defined.

(** Every key of [mediciones_actuales] gets its filtered list; a key whose
    list becomes empty stays. *)
Definition _limpiar_mediciones_antiguas (self : AnalizadorGSMAvanzado)
    (ahora : Z) : AnalizadorGSMAvanzado :=
  {| triangulador := triangulador self;
     mapeador := mapeador self;
     mediciones_actuales :=
       filter (es_reciente ahora) <$> mediciones_actuales self;
     ubicaciones_estimadas := ubicaciones_estimadas self |}.

Section Ingestion.

Variable minimize :
  (R * R → resultado R) → flotante * flotante → cotas → OptimizeResult.

(** The list handed to [triangular_ubicacion] by a call: the window of
    the subject as the previous call left it, with the new measurement
    at its end. *)
Definition ventana_de_llamada (self : AnalizadorGSMAvanzado) (imsi : string)
    (celda : CeldaGSM) : list CeldaGSM :=
  (mediciones_actuales self !!! imsi) ++ [celda].

(** The body of [procesar_medicion_celda] up to the purge: the two
    [append]s, the triangulation when the window has at least 2 entries,
    and the bookkeeping of its result. *)
Definition registrar_y_triangular (self : AnalizadorGSMAvanzado)
    (imsi : string) (celda : CeldaGSM) (ahora : Z)
  : resultado AnalizadorGSMAvanzado :=
  let tri := agregar_medicion_celda (triangulador self) celda in
  let ventana := ventana_de_llamada self imsi celda in
  let actuales := <[imsi := ventana]> (mediciones_actuales self) in
  ubicacion ←
    (if (2 <=? length ventana)%nat
     then triangular_ubicacion minimize tri ventana ahora
     else mret None);
  match ubicacion with
  | Some u =>
      mret {| triangulador := tri;
              mapeador := actualizar_trayectoria (mapeador self) imsi u;
              mediciones_actuales := actuales;
              ubicaciones_estimadas := ubicaciones_estimadas self ++ [u] |}
  | None =>
      mret {| triangulador := tri;
              mapeador := mapeador self;
              mediciones_actuales := actuales;
              ubicaciones_estimadas := ubicaciones_estimadas self |}
  end.

(** The method returns nothing; its effect is the new state.  An
    exception of the triangulation leaves the method before the purge,
    with the two [append]s done. *)
Definition procesar_medicion_celda (self : AnalizadorGSMAvanzado)
    (imsi : string) (celda : CeldaGSM) (ahora : Z)
  : resultado AnalizadorGSMAvanzado :=
  self' ← registrar_y_triangular self imsi celda ahora;
  mret (_limpiar_mediciones_antiguas self' ahora).

End Ingestion.

(** The state of [AnalizadorGSMAvanzado.__init__] with the directory
    [estaciones] loaded. *)
Definition analizador_inicial (estaciones : gmap string Ubicacion)
  : AnalizadorGSMAvanzado :=
  {| triangulador := {| estaciones_base := estaciones;
                        historial_mediciones := ∅ |};
     mapeador := {| trayectorias := ∅ |};
     mediciones_actuales := ∅;
     ubicaciones_estimadas := [] |}.

(** ** Binary64: the radicand of [_calcular_distancia], the centroid of
    two towers *)

Module Binario64.

Import PrimFloat.
#[local] Open Scope float_scope.

(** [math.radians]: CPython multiplies by the constant [pi / 180.0]. *)
Definition math_radians (x : float) : float :=
  x * (0x1.921fb54442d18p+1 / 180).

Section Libm.

(** [math.sin] and [math.cos] are the C library's. *)
Variables math_sin math_cos : float → float.

(** The variable [a], with the operations in the order Python
    evaluates them. *)
Definition haversine_a (lat1 lon1 lat2 lon2 : float) : float :=
  let dlat := math_radians (lat2 - lat1) in
  let dlon := math_radians (lon2 - lon1) in
  math_sin (dlat / 2) * math_sin (dlat / 2) +
  math_cos (math_radians lat1) * math_cos (math_radians lat2) *
  math_sin (dlon / 2) * math_sin (dlon / 2).

(** [math.sqrt(x)] raises [ValueError] when [x < 0]; the two calls of
    the source receive [a] and [1 - a]. *)
Definition raices_definidas (lat1 lon1 lat2 lon2 : float) : bool :=
  let a := haversine_a lat1 lon1 lat2 lon2 in
  negb (a <? 0) && negb (1 - a <? 0).

End Libm.

(** The values glibc 2.36 returns at the arguments that the computation
    for the points (8, 0) and (-8, 180) reaches; no other argument is
    asked there. *)
Definition glibc_sin (x : float) : float :=
  if x =? -0x1.1df46a2529d39p-3 then -0x1.1d06c968d9e19p-3
  else if x =? 0x1.921fb54442d18p+0 then 1
  else nan.

Definition glibc_cos (x : float) : float :=
  if x =? 0x1.1df46a2529d39p-3 then 0x1.fb046a930947ap-1
  else if x =? -0x1.1df46a2529d39p-3 then 0x1.fb046a930947ap-1
  else nan.

(** The latitude of [_metodo_centroide] for two towers, with the
    operations in the order NumPy evaluates them: [s1], [s2] and [total]
    are the float values of two strengths and of their positive sum, the
    weights are [pesos / np.sum(pesos)], and [np.average] is
    [sum(lats * pesos) / sum(pesos)]; with two elements each sum is one
    addition. *)
Definition lat_centroide_2 (s1 s2 total lat1 lat2 : float) : float :=
  let peso1 := s1 / total in
  let peso2 := s2 / total in
  (lat1 * peso1 + lat2 * peso2) / (peso1 + peso2).

End Binario64.

(** ** Auxiliary definitions of the statements *)

(** The last [n] entries of a list. *)
Definition ultimas {A : Type} (n : nat) (l : list A) : list A :=
  drop (length l - n) l.

(** The weighted average of NumPy on finite values. *)
Definition promedio (a w : list R) : R :=
  (suma (zip_with Rmult a w) / suma w)%R.

Definition desviaciones2 (l : list R) (c : R) : list R :=
  map (λ v, (v - c) * (v - c))%R l.

(** [min(l)] and [max(l)] of a list of floats. *)
Definition minimo (l : list R) : R :=
  match l with
  | [] => 0%R
  | v :: l' => foldr Rmin v l'
  end.

Definition maximo (l : list R) : R :=
  match l with
  | [] => 0%R
  | v :: l' => foldr Rmax v l'
  end.

(** The weights of the combiner in the words of the specification: each
    input weighs [1 / (precision + 0.001)], and the weights are divided by
    their sum. *)
Definition peso_inverso (p : R) : R := (1 / (p + 1 / 1000))%R.

Definition pesos_por_precision (ps : list R) : list R :=
  map (λ p, peso_inverso p / suma (map peso_inverso ps))%R ps.

(** The real number a finite float stands for. *)
Definition valor (x : flotante) : R := default 0%R x.

(** An estimate with finite coordinates and a finite precision that is not
    negative. *)
Definition estimacion_finita (u : UbicacionEstimada) : Prop :=
  ∃ la lo p : R,
    latitude u = Some la ∧ longitude u = Some lo ∧
    precision u = Some p ∧ (0 <= p)%R.

(** The invariant of [LocationEstimate]: a finite precision that is not
    negative, and a list of measurements that is not empty. *)
Definition invariante_estimacion (u : UbicacionEstimada) : Prop :=
  (∃ p : R, precision u = Some p ∧ (0 <= p)%R) ∧ celdas_utilizadas u ≠ [].

(** What the source relies on when [minimize] reports success: the point
    is finite and [fun] is the value of the objective at that point. *)
Definition contrato_minimize
    (minimize : (R * R → resultado R) → flotante * flotante → cotas
                → OptimizeResult) : Prop :=
  ∀ f x0 b,
    res_success (minimize f x0 b) = true →
    ∃ la lo v : R,
      res_x (minimize f x0 b) = (Some la, Some lo) ∧
      res_fun (minimize f x0 b) = Some v ∧
      f (la, lo) = Devuelve v.

(** The signal strengths for which the weights of the centroid are not
    negative: all positive, or with a sum that is not. *)
Definition pesos_sin_signo_mixto (ss : list Z) : Prop :=
  Forall (λ p, 0 < p)%Z ss ∨ (suma_Z ss ≤ 0)%Z.

(** The Python ints that [np.array] stores as [int64]. *)
Definition en_int64 (z : Z) : Prop := (- 2 ^ 63 ≤ z < 2 ^ 63)%Z.

(** Signal strengths that make an [int64] array whose [np.sum] does not
    wrap around. *)
Definition pesos_en_int64 (ss : list Z) : Prop :=
  Forall en_int64 ss ∧ en_int64 (suma_Z ss).

(** ** Data of the examples *)

Definition celda_de_prueba (clave_mcc : string) (rssi : Z) (t : Z) : CeldaGSM :=
  {| mcc := clave_mcc; mnc := "01"; lac := "100"; cell_id := "7";
     arfcn := 0; bsic := 0; signal_strength := rssi;
     celda_latitude := 0; celda_longitude := 0;
     celda_timestamp := t; tipo_celda := "BCCH" |}.

(** Fifty-one measurements of one cell, told apart by signal strength and
    time. *)
Definition mediciones_51 : list CeldaGSM :=
  map (λ i, celda_de_prueba "214" (- Z.of_nat i) (Z.of_nat i)) (seq 0 51).

(** A resolved pair for the examples. *)
Definition par_de_prueba (rssi : Z) (la lo : R) : CeldaGSM * Ubicacion :=
  (celda_de_prueba "214" rssi 0, {| lat := la; lon := lo |}).

Definition estimacion_de_prueba (la lo p : R) (celdas : list CeldaGSM)
  : UbicacionEstimada :=
  {| latitude := Some la; longitude := Some lo; precision := Some p;
     metodo := "CENTROIDE"; celdas_utilizadas := celdas; timestamp := 0 |}.

Definition directorio_de_prueba : gmap string Ubicacion :=
  {[ "214-01-100-7" := {| lat := 0; lon := 0 |};
     "215-01-100-7" := {| lat := 0; lon := 1 |} ]}.

(** The longitude, in degrees, of the point of the equator that lies 10 km
    east of longitude 0. *)
Definition lon_10km : R := (10 / 6371 * (180 / PI))%R.

Definition directorio_10km : gmap string Ubicacion :=
  {[ "214-01-100-7" := {| lat := 0; lon := 0 |};
     "215-01-100-7" := {| lat := 0; lon := lon_10km |} ]}.

(** An optimiser that stops at its starting point: it reports success when
    the start is finite and the objective has a value there. *)
Definition minimize_sin_iterar (f : R * R → resultado R)
    (x0 : flotante * flotante) (b : cotas) : OptimizeResult :=
  match x0 with
  | (Some la, Some lo) =>
      match f (la, lo) with
      | Devuelve v => {| res_x := x0; res_fun := Some v; res_success := true |}
      | Lanza _ => {| res_x := x0; res_fun := None; res_success := false |}
      end
  | _ => {| res_x := x0; res_fun := None; res_success := false |}
  end.

(** ** [MapeadorGSM] and [AnalizadorGSMAvanzado]: the reports *)

(** A feature of [generar_mapa_heatmap]: the coordinates of its point and
    its four properties.  [timestamp.isoformat()] is kept as the time it
    prints. *)
Record PuntoCalor : Type := {
  pc_coordinates : flotante * flotante;
  pc_precision : flotante;
  pc_metodo : string;
  pc_timestamp : Z;
  pc_intensity : flotante
}.

(** [max(0, x)] of Python on a finite [x]: [x] when [x > 0], and 0
    otherwise. *)
Definition max_0 (x : R) : R := if Rlt_dec 0 x then x else 0%R.

(** The list under the key ['features'].  For a precision that is not
    finite the intensity is 0 or an infinity, according to which value
    the precision is; [None] stands for it. *)
Definition generar_mapa_heatmap (ubicaciones : list UbicacionEstimada)
  : list PuntoCalor :=
  map (λ ubicacion,
         {| pc_coordinates := (longitude ubicacion, latitude ubicacion);
            pc_precision := precision ubicacion;
            pc_metodo := metodo ubicacion;
            pc_timestamp := timestamp ubicacion;
            pc_intensity :=
              max_0 <$> fl_sub (Some 1%R)
                          (fl_div (precision ubicacion) (Some 10%R)) |})
      ubicaciones.

(** A feature of [generar_trayectoria_imsi]: a point of the trajectory or
    the line through its points. *)
Inductive FeatureTrayectoria : Type :=
  | PuntoTrayectoria (coordinates : flotante * flotante) (timestamp_ : Z)
      (precision_ : flotante) (orden : nat)
  | LineaTrayectoria (coordinates : list (flotante * flotante))
      (imsi : string) (num_puntos : nat).

(** [None] is the empty dict that an unknown subject gets; otherwise the
    list under the key ['features']. *)
Definition generar_trayectoria_imsi (self : MapeadorGSM) (imsi : string)
  : option (list FeatureTrayectoria) :=
  match trayectorias self !! imsi with
  | None => None
  | Some trayectoria =>
      let puntos :=
        imap (λ i ubicacion,
                PuntoTrayectoria (longitude ubicacion, latitude ubicacion)
                  (timestamp ubicacion) (precision ubicacion) i)
             trayectoria in
      let linea :=
        if 1 <? length trayectoria then
          let coordinates :=
            map (λ ubicacion, (longitude ubicacion, latitude ubicacion))
                trayectoria in
          [LineaTrayectoria coordinates imsi (length coordinates)]
        else [] in
      Some (puntos ++ linea)
  end.

(** [np.mean] of a list of floats that may hold NaN. *)
Definition np_mean_fl (l : list flotante) : flotante :=
  fl_div (np_sum l) (Some (INR (length l))).

(** The day of a [datetime]: [timestamp.date()]. *)
Definition fecha (t : Z) : Z := (t `div` 86400000000)%Z.

(** The report of [generar_reportes_ubicacion], less its entry
    ['mapa_celdas']: the features of that map come in the order in which
    the keys entered the history, which a [gmap] does not keep. *)
Record ReporteUbicacion : Type := {
  total_ubicaciones : nat;
  ubicaciones_hoy : nat;
  precision_promedio : flotante;
  metodos_utilizados : gmap string Z;
  mapa_heatmap : list PuntoCalor;
  imsi_activos : gmap string nat
}.

Definition generar_reportes_ubicacion (self : AnalizadorGSMAvanzado)
    (ahora : Z) : ReporteUbicacion :=
  {| total_ubicaciones := length (ubicaciones_estimadas self);
     ubicaciones_hoy :=
       length (filter (λ u, fecha (timestamp u) = fecha ahora)
                 (ubicaciones_estimadas self));
     precision_promedio :=
       match ubicaciones_estimadas self with
       | [] => Some 0%R
       | _ => np_mean_fl (map precision
                            (ultimas 100 (ubicaciones_estimadas self)))
       end;
     metodos_utilizados :=
       foldl (λ m u, <[metodo u := 1%Z]> m) ∅ (ubicaciones_estimadas self);
     mapa_heatmap :=
       generar_mapa_heatmap (ultimas 1000 (ubicaciones_estimadas self));
     imsi_activos := length <$> trayectorias (mapeador self) |}.

(** ** The packet callback: a run of the engine *)

(** [paquete_callback] of [main] calls [procesar_medicion_celda] once per
    decoded packet: a run of the engine is a sequence of calls, each with
    its subject, its measurement and its clock reading.  An exception of
    one call ends the run. *)
Fixpoint procesar_mediciones
    (minimize : (R * R → resultado R) → flotante * flotante → cotas
                → OptimizeResult)
    (self : AnalizadorGSMAvanzado) (llamadas : list (string * CeldaGSM * Z))
  : resultado AnalizadorGSMAvanzado :=
  match llamadas with
  | [] => mret self
  | (imsi, celda, ahora) :: resto =>
      self' ← procesar_medicion_celda minimize self imsi celda ahora;
      procesar_mediciones minimize self' resto
  end.

(** [actualizar_trayectoria] for a sequence of estimates, each with its
    subject. *)
Definition actualizar_trayectorias (self : MapeadorGSM)
    (us : list (string * UbicacionEstimada)) : MapeadorGSM :=
  foldl (λ m p, actualizar_trayectoria m p.1 p.2) self us.

(** ** Auxiliary definitions of the further statements *)

(** The value of [_calcular_distancia] in exact arithmetic. *)
Definition distancia_km (lat1 lon1 lat2 lon2 : R) : R :=
  (6371 * (2 * math_atan2 (sqrt (haversine_a lat1 lon1 lat2 lon2))
                          (sqrt (1 - haversine_a lat1 lon1 lat2 lon2))))%R.

(** The position and the precision of an estimate. *)
Definition posicion_y_precision (u : UbicacionEstimada)
  : flotante * flotante * flotante :=
  (latitude u, longitude u, precision u).

(** The bounds that the engine keeps on its state: a history has at most
    50 entries, each filed under its own key, and a trajectory has at most
    100. *)
Definition estado_acotado (self : AnalizadorGSMAvanzado) : Prop :=
  (∀ k, length (historial_mediciones (triangulador self) !!! k) ≤ 50) ∧
  (∀ k c, c ∈ historial_mediciones (triangulador self) !!! k →
          clave_celda c = k) ∧
  (∀ i, length (trayectorias (mapeador self) !!! i) ≤ 100).

(** What the engine keeps about its estimates: each one comes from the
    two-cell fallback or from the combiner, and a trajectory holds stored
    estimates only. *)
Definition estimaciones_coherentes (self : AnalizadorGSMAvanzado) : Prop :=
  (∀ u, u ∈ ubicaciones_estimadas self →
        metodo u = "2_CELDAS" ∨ metodo u = "COMBINADO") ∧
  (∀ i u, u ∈ trayectorias (mapeador self) !!! i →
          u ∈ ubicaciones_estimadas self).

(** The separator of [clave_celda], by its code. *)
Definition guion : Ascii.ascii := Ascii.ascii_of_nat 45.

(** No character of the string is the separator. *)
Fixpoint sin_guion (s : string) : bool :=
  match s with
  | EmptyString => true
  | String a s => negb (Ascii.eqb a guion) && sin_guion s
  end.

(** ** Data of the further examples *)

(** One estimate more than the capacity of a trajectory, all of subject
    ["X"], told apart by their time. *)
Definition estimaciones_101 : list (string * UbicacionEstimada) :=
  map (λ i, ("X", {| latitude := Some 0%R; longitude := Some 0%R;
                     precision := Some 0%R; metodo := "2_CELDAS";
                     celdas_utilizadas := []; timestamp := Z.of_nat i |}))
      (seq 0 101).

(** Three calls: two subjects, two cells. *)
Definition llamadas_de_prueba : list (string * CeldaGSM * Z) :=
  [("X", celda_de_prueba "214" (-60) 0, 0%Z);
   ("Y", celda_de_prueba "215" (-70) 10, 10%Z);
   ("X", celda_de_prueba "215" (-90) 20, 20%Z)].

(** A directory with three cells. *)
Definition directorio_de_tres : gmap string Ubicacion :=
  {[ "214-01-100-7" := {| lat := 0%R; lon := 0%R |};
     "215-01-100-7" := {| lat := 0%R; lon := 1%R |};
     "216-01-100-7" := {| lat := 1%R; lon := 0%R |} ]}.

(** A cell whose network codes may hold the separator. *)
Definition celda_con_guion (mcc_ mnc_ : string) : CeldaGSM :=
  {| mcc := mcc_; mnc := mnc_; lac := "1"; cell_id := "7";
     arfcn := 0; bsic := 0; signal_strength := -70;
     celda_latitude := 0; celda_longitude := 0; celda_timestamp := 0;
     tipo_celda := "GSM" |}.

(** * Properties *)

(** ** Geodesy: the radicand of the haversine formula *)

Section Geodesia.
#[local] Open Scope R_scope.

Lemma sin_cuadrado_cota (x : R) : 0 <= sin x * sin x <= 1.
Proof.
  pose proof (sin2_cos2 x) as H. unfold Rsqr in H.
  split; nra.
Qed.

Lemma producto_cosenos (m h : R) :
  cos (m - h) * cos (m + h) =
  cos m * cos m * (cos h * cos h) - sin m * sin m * (sin h * sin h).
Proof. rewrite cos_minus, cos_plus. ring. Qed.

Lemma haversine_a_rango (lat1 lon1 lat2 lon2 : R) :
  0 <= haversine_a lat1 lon1 lat2 lon2 <= 1.
Proof.
  unfold haversine_a, math_radians.
  set (h := (lat2 - lat1) * (PI / 180) / 2).
  set (m := (lat1 + lat2) * (PI / 180) / 2).
  set (u := (lon2 - lon1) * (PI / 180) / 2).
  replace (lat1 * (PI / 180)) with (m - h) by (unfold m, h; field).
  replace (lat2 * (PI / 180)) with (m + h) by (unfold m, h; field).
  rewrite producto_cosenos.
  pose proof (sin2_cos2 h) as Hh. pose proof (sin2_cos2 m) as Hm.
  unfold Rsqr in Hh, Hm.
  pose proof (sin_cuadrado_cota u) as Hu.
  pose proof (sin_cuadrado_cota h) as Hsh.
  pose proof (sin_cuadrado_cota m) as Hsm.
  set (sh := sin h * sin h) in *. set (sm := sin m * sin m) in *.
  set (su := sin u * sin u) in *.
  replace (cos h * cos h) with (1 - sh) by lra.
  replace (cos m * cos m) with (1 - sm) by lra.
  replace (sh + ((1 - sm) * (1 - sh) - sm * sh) * sin u * sin u)
    with (sh + ((1 - sm) * (1 - sh) - sm * sh) * su) by (unfold su; ring).
  split; nra.
Qed.

Lemma math_sqrt_devuelve (x : R) : 0 <= x -> math_sqrt x = Devuelve (sqrt x).
Proof.
  intros Hx. unfold math_sqrt. destruct (Rlt_dec x 0); [lra | reflexivity].
Qed.

Lemma _calcular_distancia_devuelve (lat1 lon1 lat2 lon2 : R) :
  _calcular_distancia lat1 lon1 lat2 lon2 =
  Devuelve (6371 * (2 * math_atan2 (sqrt (haversine_a lat1 lon1 lat2 lon2))
                                   (sqrt (1 - haversine_a lat1 lon1 lat2 lon2)))).
Proof.
  pose proof (haversine_a_rango lat1 lon1 lat2 lon2) as Ha.
  unfold _calcular_distancia.
  rewrite math_sqrt_devuelve by lra. cbn.
  rewrite math_sqrt_devuelve by lra. reflexivity.
Qed.

End Geodesia.

(** ** Sums, averages and the weights of the centroid *)

Section Numerica.
#[local] Open Scope R_scope.

Lemma np_sum_finito (l : list R) : np_sum (Some <$> l) = Some (suma l).
Proof.
  induction l as [|x l IH]; [reflexivity|].
  cbn [fmap list_fmap]. unfold np_sum in *. cbn [foldr]. rewrite IH. reflexivity.
Qed.

Lemma zip_fl_mul_finito (a w : list R) :
  zip_with fl_mul (Some <$> a) (Some <$> w) = Some <$> zip_with Rmult a w.
Proof.
  revert w. induction a as [|x a IH]; intros [|y w]; cbn; try reflexivity.
  now rewrite IH.
Qed.

Lemma np_average_finito (a w : list R) :
  length a = length w -> suma w <> 0 ->
  np_average (Some <$> a) (Some <$> w) =
  Devuelve (Some (suma (zip_with Rmult a w) / suma w)).
Proof.
  intros Hlen Hs. unfold np_average.
  rewrite !length_fmap, Hlen, Nat.eqb_refl. cbn [negb].
  rewrite np_sum_finito.
  destruct (Req_dec_T (suma w) 0) as [E|_]; [contradiction|].
  rewrite zip_fl_mul_finito, np_sum_finito. unfold fl_div.
  destruct (Req_dec_T (suma w) 0) as [E|_]; [contradiction|reflexivity].
Qed.

Lemma suma_cons (x : R) (l : list R) : suma (x :: l) = x + suma l.
Proof. reflexivity. Qed.

Lemma suma_Z_cons (x : Z) (l : list Z) : suma_Z (x :: l) = (x + suma_Z l)%Z.
Proof. reflexivity. Qed.

Lemma suma_map_div (s : R) (l : list Z) :
  suma (map (fun p => IZR p / s) l) = IZR (suma_Z l) / s.
Proof.
  induction l as [|p l IH].
  - cbn. unfold Rdiv. now rewrite Rmult_0_l.
  - cbn [map]. rewrite suma_cons, suma_Z_cons, IH, plus_IZR. unfold Rdiv. ring.
Qed.

Lemma suma_replicate (n : nat) (x : R) : suma (replicate n x) = INR n * x.
Proof.
  induction n as [|n IH]; [cbn; ring|].
  cbn [replicate]. rewrite suma_cons, IH, S_INR. ring.
Qed.

Lemma length_pesos_centroide (l : list Z) :
  length (pesos_centroide l) = length l.
Proof.
  unfold pesos_centroide. destruct (0 <? suma_Z l)%Z.
  - apply length_map.
  - apply length_replicate.
Qed.

Lemma suma_pesos_centroide (l : list Z) :
  l <> [] -> suma (pesos_centroide l) = 1.
Proof.
  intros Hl. unfold pesos_centroide.
  destruct (0 <? suma_Z l)%Z eqn:E.
  - apply Z.ltb_lt in E. rewrite suma_map_div.
    apply IZR_lt in E. field. lra.
  - rewrite suma_replicate.
    assert (0 < INR (length l)) by (apply lt_0_INR; destruct l; [contradiction|cbn; lia]).
    field. lra.
Qed.

End Numerica.

(** ** The history of a cell key *)

Section Historial.

Lemma length_ultimas {A} (n : nat) (l : list A) : length (ultimas n l) ≤ n.
Proof. unfold ultimas. rewrite length_drop. lia. Qed.

Lemma ultimas_app {A} (n : nat) (l m : list A) :
  ultimas n (ultimas n l ++ m) = ultimas n (l ++ m).
Proof.
  unfold ultimas. rewrite !length_app, length_drop.
  destruct (decide (length l ≤ n)) as [Hle|Hgt].
  - replace (length l - n) with 0 by lia. cbn [drop].
    now rewrite Nat.sub_0_r.
  - replace (length l - (length l - n) + length m - n) with (length m) by lia.
    replace (length l + length m - n) with ((length l - n) + length m) by lia.
    rewrite <- drop_drop.
    rewrite (drop_app_le l m (length l - n)) by lia.
    reflexivity.
Qed.

Lemma pop_si_excede {A} (h : list A) (c : A) :
  length h ≤ 50 →
  (if 50 <? length (h ++ [c]) then drop 1 (h ++ [c]) else h ++ [c])
  = ultimas 50 (h ++ [c]).
Proof.
  intros Hh. unfold ultimas. rewrite length_app. cbn [length].
  destruct (50 <? length h + 1) eqn:E.
  - apply Nat.ltb_lt in E. now replace (length h + 1 - 50) with 1 by lia.
  - apply Nat.ltb_ge in E. now replace (length h + 1 - 50) with 0 by lia.
Qed.

Lemma historial_agregar_misma (self : TrianguladorGSM) (c : CeldaGSM) :
  historial_mediciones (agregar_medicion_celda self c) !!! clave_celda c =
  let h := (historial_mediciones self !!! clave_celda c) ++ [c] in
  if 50 <? length h then drop 1 h else h.
Proof. unfold agregar_medicion_celda. cbn. now rewrite lookup_total_insert_eq. Qed.

Lemma historial_agregar_otra (self : TrianguladorGSM) (c : CeldaGSM) (k : string) :
  clave_celda c ≠ k →
  historial_mediciones (agregar_medicion_celda self c) !!! k =
  historial_mediciones self !!! k.
Proof.
  intros Hk. unfold agregar_medicion_celda. cbn.
  now rewrite lookup_total_insert_ne.
Qed.

Lemma historial_tras_mediciones (ms : list CeldaGSM) :
  ∀ (self : TrianguladorGSM) (k : string),
    length (historial_mediciones self !!! k) ≤ 50 →
    historial_mediciones (foldl agregar_medicion_celda self ms) !!! k =
    ultimas 50 ((historial_mediciones self !!! k)
                  ++ filter (λ c, clave_celda c = k) ms).
Proof.
  induction ms as [|c ms IH]; intros self k Hlen.
  - cbn. rewrite app_nil_r. unfold ultimas.
    now replace (length (historial_mediciones self !!! k) - 50) with 0 by lia.
  - cbn [foldl]. destruct (decide (clave_celda c = k)) as [<-|Hne].
    + rewrite filter_cons_True by reflexivity.
      rewrite IH.
      * rewrite historial_agregar_misma. cbn zeta.
        rewrite pop_si_excede by exact Hlen.
        rewrite ultimas_app, <- app_assoc. reflexivity.
      * rewrite historial_agregar_misma. cbn zeta.
        rewrite pop_si_excede by exact Hlen. apply length_ultimas.
    + rewrite filter_cons_False by exact Hne.
      rewrite IH; rewrite historial_agregar_otra by exact Hne; auto.
Qed.

Lemma filter_todas (k : string) (ms : list CeldaGSM) :
  Forall (λ c, clave_celda c = k) ms →
  filter (λ c, clave_celda c = k) ms = ms.
Proof.
  induction 1 as [|c ms Hc _ IH]; [reflexivity|].
  rewrite filter_cons_True by exact Hc. now rewrite IH.
Qed.

(** C2.  The history of a cell key is a FIFO buffer of capacity 50.  After
    any sequence [ms] of recordings, the history of key [k] holds the last
    50 entries of what it held before followed by the measurements of
    [ms] with key [k], in the order of insertion, and it has at most 50
    entries again.  In particular, 51 measurements of one key recorded
    into an empty history leave exactly 50 entries, the 50 most recent
    ones. *)
Theorem historial_fifo_50 (self : TrianguladorGSM) (k : string)
    (ms : list CeldaGSM) :
  length (historial_mediciones self !!! k) ≤ 50 →
  let h := historial_mediciones self !!! k in
  let h' := historial_mediciones (foldl agregar_medicion_celda self ms) !!! k in
  h' = ultimas 50 (h ++ filter (λ c, clave_celda c = k) ms) ∧
  length h' ≤ 50 ∧
  (h = [] → Forall (λ c, clave_celda c = k) ms → length ms = 51 →
   length h' = 50 ∧ h' = drop 1 ms).
Proof.
  intros Hlen h h'.
  assert (Hh' : h' = ultimas 50 (h ++ filter (λ c, clave_celda c = k) ms))
    by (apply historial_tras_mediciones; exact Hlen).
  split; [exact Hh'|].
  split; [rewrite Hh'; apply length_ultimas|].
  intros Hnil Hall H51. rewrite Hh', Hnil, filter_todas by exact Hall.
  cbn [app]. unfold ultimas. rewrite H51. cbn [Nat.sub].
  split; [rewrite length_drop; lia | reflexivity].
Qed.

(** The 51 measurements of [mediciones_51], recorded into an empty
    history. *)
Lemma historial_fifo_50_witness :
  let self := {| estaciones_base := ∅; historial_mediciones := ∅ |} in
  let k := "214-01-100-7" in
  let h' := historial_mediciones (foldl agregar_medicion_celda self mediciones_51)
              !!! k in
  length (historial_mediciones self !!! k) ≤ 50 ∧
  historial_mediciones self !!! k = [] ∧
  Forall (λ c, clave_celda c = k) mediciones_51 ∧
  length mediciones_51 = 51 ∧
  length h' = 50 ∧ h' = drop 1 mediciones_51.
Proof.
  intros self k h'.
  assert (H0 : historial_mediciones self !!! k = [])
    by (cbn; now rewrite lookup_total_empty).
  assert (Hle : length (historial_mediciones self !!! k) ≤ 50)
    by (rewrite H0; cbn; lia).
  assert (Hk : Forall (λ c, clave_celda c = k) mediciones_51).
  { unfold mediciones_51. apply Forall_map, Forall_forall.
    intros i _. reflexivity. }
  assert (H51 : length mediciones_51 = 51) by reflexivity.
  split; [exact Hle|]. split; [exact H0|]. split; [exact Hk|].
  split; [exact H51|].
  exact (proj2 (proj2 (historial_fifo_50 self k mediciones_51 Hle)) H0 Hk H51).
Defined.

End Historial.

(** ** The centroid in closed form *)

Section FormaCerrada.

Lemma map_desviaciones (l : list R) (c : R) :
  map (λ v, let d := fl_sub (Some v) (Some c) in fl_mul d d) l
  = Some <$> desviaciones2 l c.
Proof.
  unfold desviaciones2. induction l as [|v l IH]; [reflexivity|].
  cbn [map fmap list_fmap]. f_equal. exact IH.
Qed.

Lemma _metodo_centroide_devuelve (celdas : list (CeldaGSM * Ubicacion)) (ahora : Z) :
  celdas ≠ [] →
  let lats := map (λ p, lat p.2) celdas in
  let lons := map (λ p, lon p.2) celdas in
  let pesos := pesos_centroide (map (λ p, signal_strength p.1) celdas) in
  let lat_c := promedio lats pesos in
  let lon_c := promedio lons pesos in
  _metodo_centroide celdas ahora =
  Devuelve {| latitude := Some lat_c;
              longitude := Some lon_c;
              precision :=
                np_sqrt (Some (promedio (desviaciones2 lats lat_c) pesos +
                               promedio (desviaciones2 lons lon_c) pesos)%R);
              metodo := "CENTROIDE";
              celdas_utilizadas := map fst celdas;
              timestamp := ahora |}.
Proof.
  intros Hne lats lons pesos lat_c lon_c.
  assert (Hs : suma pesos ≠ 0%R).
  { unfold pesos. rewrite suma_pesos_centroide; [lra|].
    destruct celdas; [contradiction|discriminate]. }
  assert (Hl : ∀ (f : CeldaGSM * Ubicacion → R),
             length (map f celdas) = length pesos).
  { intros f. unfold pesos. now rewrite length_pesos_centroide, !length_map. }
  unfold _metodo_centroide. fold lats lons pesos.
  rewrite (np_average_finito lats pesos) by (apply Hl || exact Hs).
  cbn [mbind resultado_bind]. fold (promedio lats pesos). fold lat_c.
  rewrite (np_average_finito lons pesos) by (apply Hl || exact Hs).
  cbn [mbind resultado_bind]. fold (promedio lons pesos). fold lon_c.
  rewrite !map_desviaciones.
  rewrite !np_average_finito;
    try exact Hs; try (unfold desviaciones2; rewrite length_map; apply Hl).
  reflexivity.
Qed.

End FormaCerrada.

(** ** The combiner never raises on a non-empty list *)

Section Combinador.
#[local] Open Scope R_scope.

Lemma np_sum_cons (x : flotante) (l : list flotante) :
  np_sum (x :: l) = fl_add x (np_sum l).
Proof. reflexivity. Qed.

Lemma np_sum_finito_inv (l : list flotante) (s : R) :
  np_sum l = Some s -> exists rs, l = Some <$> rs /\ suma rs = s.
Proof.
  revert s. induction l as [|x l IH]; intros s Hs.
  - exists []. split; [reflexivity|]. cbn in Hs. now injection Hs.
  - rewrite np_sum_cons in Hs.
    destruct x as [a|]; [|discriminate].
    destruct (np_sum l) as [s'|] eqn:E; [|discriminate].
    destruct (IH s' eq_refl) as (rs & -> & Hrs).
    exists (a :: rs). split; [reflexivity|].
    cbn in Hs. injection Hs as <-. rewrite suma_cons, Hrs. reflexivity.
Qed.

Lemma np_sum_todo_nan {A : Type} (l : list A) :
  l <> [] -> np_sum (map (fun _ => None) l) = None.
Proof. destruct l; [contradiction|reflexivity]. Qed.

Lemma fl_div_no_finito (w s : flotante) :
  s = None \/ s = Some 0 -> fl_div w s = None.
Proof.
  intros [-> | ->]; destruct w as [x|]; try reflexivity.
  unfold fl_div. destruct (Req_dec_T 0 0); [reflexivity|contradiction].
Qed.

Lemma fl_div_finito (x y : R) : y <> 0 -> fl_div (Some x) (Some y) = Some (x / y).
Proof.
  intros Hy. unfold fl_div. destruct (Req_dec_T y 0); [contradiction|reflexivity].
Qed.

Lemma suma_map_entre (s : R) (l : list R) :
  suma (map (fun r => r / s) l) = suma l / s.
Proof.
  induction l as [|r l IH].
  - cbn. unfold Rdiv. now rewrite Rmult_0_l.
  - cbn [map]. rewrite !suma_cons, IH. unfold Rdiv. ring.
Qed.

Lemma map_fl_div_finito (s : R) (rs : list R) :
  s <> 0 ->
  map (fun w => fl_div w (Some s)) (Some <$> rs)
  = Some <$> map (fun r => r / s) rs.
Proof.
  intros Hs. induction rs as [|r rs IH]; [reflexivity|].
  cbn [fmap list_fmap map]. rewrite fl_div_finito by exact Hs.
  f_equal. exact IH.
Qed.

(** After the division by their sum, the weights of the combiner add up to
    one, unless one of them is not finite. *)
Lemma np_sum_normalizados (ws : list flotante) :
  ws <> [] ->
  let nws := map (fun w => fl_div w (np_sum ws)) ws in
  np_sum nws = None \/
  (exists rs, ws = Some <$> rs /\ suma rs <> 0 /\
              nws = Some <$> map (fun r => r / suma rs) rs /\
              np_sum nws = Some 1).
Proof.
  intros Hne nws. unfold nws.
  destruct (np_sum ws) as [s|] eqn:E.
  - destruct (Req_dec_T s 0) as [->|Hs].
    + left. rewrite (map_ext _ (fun _ => None));
        [now apply np_sum_todo_nan|].
      intros w. apply fl_div_no_finito. now right.
    + right. destruct (np_sum_finito_inv ws s E) as (rs & -> & Hrs).
      exists rs. subst s. split; [reflexivity|]. split; [exact Hs|].
      rewrite map_fl_div_finito by exact Hs. split; [reflexivity|].
      rewrite np_sum_finito, suma_map_entre. f_equal. now field.
  - left. rewrite (map_ext _ (fun _ => None));
      [now apply np_sum_todo_nan|].
    intros w. apply fl_div_no_finito. now left.
Qed.

Lemma length_pesos_combinacion (ps : list flotante) :
  length (pesos_combinacion ps) = length ps.
Proof. unfold pesos_combinacion, pesos_inversos. now rewrite !length_map. Qed.

Lemma np_average_total (a w : list flotante) :
  length a = length w ->
  (np_sum w = None \/ np_sum w = Some 1) ->
  np_average a w = Devuelve (fl_div (np_sum (zip_with fl_mul a w)) (np_sum w)).
Proof.
  intros Hlen Hw. unfold np_average.
  rewrite Hlen, Nat.eqb_refl. cbn [negb].
  destruct Hw as [-> | ->]; [reflexivity|].
  destruct (Req_dec_T 1 0); [lra|reflexivity].
Qed.

Lemma suma_pesos_combinacion (ps : list flotante) :
  ps <> [] ->
  np_sum (pesos_combinacion ps) = None \/ np_sum (pesos_combinacion ps) = Some 1.
Proof.
  intros Hne. unfold pesos_combinacion.
  destruct (np_sum_normalizados (pesos_inversos ps)) as [H|(rs & _ & _ & _ & H)].
  - unfold pesos_inversos. destruct ps; [contradiction|discriminate].
  - now left.
  - now right.
Qed.

Lemma _combinar_resultados_devuelve (resultados : list UbicacionEstimada) (ahora : Z) :
  resultados <> [] ->
  let pesos := pesos_combinacion (map precision resultados) in
  let media a := fl_div (np_sum (zip_with fl_mul a pesos)) (np_sum pesos) in
  _combinar_resultados resultados ahora =
  Devuelve {| latitude := media (map latitude resultados);
              longitude := media (map longitude resultados);
              precision := media (map precision resultados);
              metodo := "COMBINADO";
              celdas_utilizadas := concat (map celdas_utilizadas resultados);
              timestamp := ahora |}.
Proof.
  intros Hne pesos media.
  assert (Hs : np_sum pesos = None \/ np_sum pesos = Some 1).
  { apply suma_pesos_combinacion. destruct resultados; [contradiction|discriminate]. }
  assert (Hl : forall (f : UbicacionEstimada -> flotante),
             length (map f resultados) = length pesos).
  { intros f. unfold pesos. now rewrite length_pesos_combinacion, !length_map. }
  unfold _combinar_resultados. fold pesos.
  rewrite !np_average_total by (apply Hl || exact Hs).
  reflexivity.
Qed.

End Combinador.

(** ** Ingestion: outcome, purge and absence of validation *)

Section Ingesta.

Variable minimize :
  (R * R → resultado R) → flotante * flotante → cotas → OptimizeResult.

Lemma dos_celdas_resueltas (self : TrianguladorGSM) (c1 c2 : CeldaGSM)
    (u1 u2 : Ubicacion) (ahora : Z) :
  _obtener_ubicacion_celda self c1 = Some u1 →
  _obtener_ubicacion_celda self c2 = Some u2 →
  ∃ u, _estimar_ubicacion_2_celdas self [c1; c2] ahora = Devuelve (Some u)
       ∧ celdas_utilizadas u = [c1; c2] ∧ metodo u = "2_CELDAS".
Proof.
  intros H1 H2. unfold _estimar_ubicacion_2_celdas, celdas_con_ubicacion.
  cbn [length Nat.ltb Nat.leb omap list_omap]. rewrite H1, H2. cbn [fmap option_fmap option_map].
  rewrite _calcular_distancia_devuelve.
  destruct (0 <? signal_strength c1 + signal_strength c2)%Z;
    cbn; eexists; split; try reflexivity; split; reflexivity.
Qed.

Lemma _estimar_ubicacion_2_celdas_total (self : TrianguladorGSM)
    (celdas : list CeldaGSM) (ahora : Z) :
  ∃ r, _estimar_ubicacion_2_celdas self celdas ahora = Devuelve r.
Proof.
  unfold _estimar_ubicacion_2_celdas.
  destruct (length celdas <? 2); [eexists; reflexivity|].
  destruct (celdas_con_ubicacion self celdas) as [|[c1 u1] [|[c2 u2] l]];
    try (eexists; reflexivity).
  rewrite _calcular_distancia_devuelve.
  destruct (0 <? signal_strength c1 + signal_strength c2)%Z;
    cbn; eexists; reflexivity.
Qed.

Lemma triangular_ubicacion_total (self : TrianguladorGSM)
    (mediciones : list CeldaGSM) (ahora : Z) :
  ∃ r, triangular_ubicacion minimize self mediciones ahora = Devuelve r.
Proof.
  unfold triangular_ubicacion.
  destruct (length mediciones <? 3);
    [apply _estimar_ubicacion_2_celdas_total|].
  destruct (length (celdas_con_ubicacion self mediciones) <? 2) eqn:E;
    [eexists; reflexivity|].
  apply Nat.ltb_ge in E.
  rewrite _metodo_centroide_devuelve
    by (intros Hnil; rewrite Hnil in E; cbn in E; lia).
  cbn [mbind resultado_bind agregar_si].
  match goal with
  | |- context [match ?l ++ [?c] with _ => _ end] =>
      destruct (l ++ [c]) as [|r0 rs] eqn:El;
        [destruct l; discriminate|]
  end.
  rewrite _combinar_resultados_devuelve by discriminate.
  eexists; reflexivity.
Qed.

Lemma registrar_y_triangular_devuelve (self : AnalizadorGSMAvanzado)
    (imsi : string) (celda : CeldaGSM) (ahora : Z) :
  let tri := agregar_medicion_celda (triangulador self) celda in
  let ventana := ventana_de_llamada self imsi celda in
  ∃ r,
    (if (2 <=? length ventana)%nat
     then triangular_ubicacion minimize tri ventana ahora
     else Devuelve None) = Devuelve r ∧
    registrar_y_triangular minimize self imsi celda ahora =
    Devuelve
      {| triangulador := tri;
         mapeador := match r with
                     | Some u => actualizar_trayectoria (mapeador self) imsi u
                     | None => mapeador self
                     end;
         mediciones_actuales := <[imsi := ventana]> (mediciones_actuales self);
         ubicaciones_estimadas := ubicaciones_estimadas self ++ option_list r |}.
Proof.
  intros tri ventana. unfold registrar_y_triangular. fold tri ventana.
  destruct (2 <=? length ventana)%nat.
  - destruct (triangular_ubicacion_total tri ventana ahora) as [r Hr].
    exists r. rewrite Hr. split; [reflexivity|].
    destruct r; cbn; [reflexivity|]. now rewrite app_nil_r.
  - exists None. split; [reflexivity|]. cbn. now rewrite app_nil_r.
Qed.

Lemma ventana_tras_purga (m : gmap string (list CeldaGSM)) (ahora : Z) (k : string) :
  (filter (es_reciente ahora) <$> m) !!! k = filter (es_reciente ahora) (m !!! k).
Proof.
  rewrite !lookup_total_alt, lookup_fmap.
  destruct (m !! k); reflexivity.
Qed.

Lemma procesar_medicion_celda_devuelve (self : AnalizadorGSMAvanzado)
    (imsi : string) (celda : CeldaGSM) (ahora : Z) :
  let tri := agregar_medicion_celda (triangulador self) celda in
  let ventana := ventana_de_llamada self imsi celda in
  ∃ r,
    (if (2 <=? length ventana)%nat
     then triangular_ubicacion minimize tri ventana ahora
     else Devuelve None) = Devuelve r ∧
    procesar_medicion_celda minimize self imsi celda ahora =
    Devuelve
      {| triangulador := tri;
         mapeador := match r with
                     | Some u => actualizar_trayectoria (mapeador self) imsi u
                     | None => mapeador self
                     end;
         mediciones_actuales :=
           filter (es_reciente ahora)
             <$> <[imsi := ventana]> (mediciones_actuales self);
         ubicaciones_estimadas := ubicaciones_estimadas self ++ option_list r |}.
Proof.
  intros tri ventana.
  destruct (registrar_y_triangular_devuelve self imsi celda ahora)
    as (r & Hr & Hreg).
  exists r. split; [exact Hr|].
  unfold procesar_medicion_celda. rewrite Hreg. reflexivity.
Qed.

Lemma todas_recientes_tras_purga (m : gmap string (list CeldaGSM)) (ahora : Z)
    (k : string) (c : CeldaGSM) :
  c ∈ (filter (es_reciente ahora) <$> m) !!! k →
  (ahora - celda_timestamp c < cinco_minutos)%Z.
Proof.
  rewrite ventana_tras_purga. intros Hc.
  apply list_elem_of_filter in Hc. exact (proj1 Hc).
Qed.

(** The outcome of a call is decided by its triangulation: a result is
    recorded and the purge follows; an exception leaves the method at
    once, before the purge. *)
Lemma procesar_medicion_celda_casos (self : AnalizadorGSMAvanzado)
    (imsi : string) (celda : CeldaGSM) (ahora : Z) :
  let tri := agregar_medicion_celda (triangulador self) celda in
  let ventana := ventana_de_llamada self imsi celda in
  procesar_medicion_celda minimize self imsi celda ahora =
  match (if (2 <=? length ventana)%nat
         then triangular_ubicacion minimize tri ventana ahora
         else Devuelve None) with
  | Devuelve r =>
      Devuelve
        {| triangulador := tri;
           mapeador := match r with
                       | Some u => actualizar_trayectoria (mapeador self) imsi u
                       | None => mapeador self
                       end;
           mediciones_actuales :=
             filter (es_reciente ahora)
               <$> <[imsi := ventana]> (mediciones_actuales self);
           ubicaciones_estimadas := ubicaciones_estimadas self ++ option_list r |}
  | Lanza e => Lanza e
  end.
Proof.
  intros tri ventana. unfold procesar_medicion_celda, registrar_y_triangular.
  fold tri ventana.
  destruct (2 <=? length ventana)%nat;
    [destruct (triangular_ubicacion minimize tri ventana ahora) as [[u|]|e]|];
    cbn; rewrite ?app_nil_r; reflexivity.
Qed.

(** A call that returns: its triangulation returned, and the new state is
    the recorded one, purged. *)
Lemma procesar_medicion_celda_inv (self self' : AnalizadorGSMAvanzado)
    (imsi : string) (celda : CeldaGSM) (ahora : Z) :
  procesar_medicion_celda minimize self imsi celda ahora = Devuelve self' →
  let tri := agregar_medicion_celda (triangulador self) celda in
  let ventana := ventana_de_llamada self imsi celda in
  ∃ r,
    (if (2 <=? length ventana)%nat
     then triangular_ubicacion minimize tri ventana ahora
     else Devuelve None) = Devuelve r ∧
    self' =
      {| triangulador := tri;
         mapeador := match r with
                     | Some u => actualizar_trayectoria (mapeador self) imsi u
                     | None => mapeador self
                     end;
         mediciones_actuales :=
           filter (es_reciente ahora)
             <$> <[imsi := ventana]> (mediciones_actuales self);
         ubicaciones_estimadas := ubicaciones_estimadas self ++ option_list r |}.
Proof.
  intros Hp tri ventana. rewrite procesar_medicion_celda_casos in Hp.
  fold tri ventana in Hp.
  destruct (if (2 <=? length ventana)%nat then _ else _) as [r|e];
    [|discriminate].
  exists r. split; [reflexivity|]. now injection Hp as <-.
Qed.

(** C10.  After a call of [procesar_medicion_celda] that completes, for
    any subject, no window of any subject key holds a measurement observed
    5 minutes or more before the time of the call; so none observed more
    than 5 minutes before it.  (A call in which the triangulation raises
    does not complete, and does not reach the purge.) *)
Theorem purga_todas_las_ventanas (self self' : AnalizadorGSMAvanzado)
    (imsi : string) (celda : CeldaGSM) (ahora : Z) :
  procesar_medicion_celda minimize self imsi celda ahora = Devuelve self' →
  ∀ (k : string) (c : CeldaGSM),
    c ∈ mediciones_actuales self' !!! k →
    (ahora - celda_timestamp c < cinco_minutos)%Z.
Proof.
  intros Hp k c.
  destruct (procesar_medicion_celda_inv self self' imsi celda ahora Hp)
    as (r & _ & ->).
  cbn [mediciones_actuales]. apply todas_recientes_tras_purga.
Qed.


(** C3, as amended.  No ingestion is rejected for its identifier fields:
    whatever they are, the measurement is recorded as the newest entry of
    the history of its cell key and appended to the window of the subject,
    and the triangulation that follows receives this history and this
    window.  The call raises only when that triangulation raises, with the
    exception of the triangulation.  When the call returns, the state has
    the history with the measurement, and the window of the subject is the
    previous window with the measurement appended, filtered by the
    purge. *)
Theorem ingestion_sin_validacion (self : AnalizadorGSMAvanzado)
    (imsi : string) (celda : CeldaGSM) (ahora : Z) :
  let tri := agregar_medicion_celda (triangulador self) celda in
  let ventana := (mediciones_actuales self !!! imsi) ++ [celda] in
  last (historial_mediciones tri !!! clave_celda celda) = Some celda ∧
  (∀ e, procesar_medicion_celda minimize self imsi celda ahora = Lanza e →
        2 ≤ length ventana ∧
        triangular_ubicacion minimize tri ventana ahora = Lanza e) ∧
  (∀ self',
     procesar_medicion_celda minimize self imsi celda ahora = Devuelve self' →
     triangulador self' = tri ∧
     mediciones_actuales self' !!! imsi = filter (es_reciente ahora) ventana).
Proof.
  intros tri ventana.
  pose proof (procesar_medicion_celda_casos self imsi celda ahora) as Hc.
  cbv zeta in Hc. unfold ventana_de_llamada in Hc. fold ventana tri in Hc.
  split; [|split].
  - unfold tri, agregar_medicion_celda. cbn [historial_mediciones].
    rewrite lookup_total_insert_eq.
    destruct (historial_mediciones (triangulador self) !!! clave_celda celda)
      as [|c0 h].
    + reflexivity.
    + match goal with |- context [if ?b then _ else _] => destruct b end.
      * cbn [app drop]. apply last_snoc.
      * apply last_snoc.
  - intros e He. rewrite Hc in He.
    destruct (2 <=? length ventana)%nat eqn:E; [|discriminate].
    apply Nat.leb_le in E. split; [exact E|].
    destruct (triangular_ubicacion minimize tri ventana ahora) as [r|e'];
      [discriminate|]. now injection He as ->.
  - intros self' Hp. rewrite Hc in Hp.
    destruct (if (2 <=? length ventana)%nat then _ else _) as [r|e];
      [|discriminate].
    injection Hp as <-. cbn [triangulador mediciones_actuales].
    split; [reflexivity|].
    rewrite ventana_tras_purga, lookup_total_insert_eq. reflexivity.
Qed.

End Ingesta.

(** ** Two runs of the engine *)

Section Escenarios.

Lemma ventana_vacia {A : Type} (k : string) :
  (∅ : gmap string (list A)) !!! k = [].
Proof. now rewrite lookup_total_empty. Qed.



(** The first measurement of a subject, in the initial state. *)
Lemma purga_todas_las_ventanas_witness :
  let m0 := celda_de_prueba "214" (-60) 0 in
  ∃ st1,
    procesar_medicion_celda minimize_sin_iterar
      (analizador_inicial directorio_de_prueba) "X" m0 0 = Devuelve st1 ∧
    ∀ (k : string) (c : CeldaGSM),
      c ∈ mediciones_actuales st1 !!! k →
      (0 - celda_timestamp c < cinco_minutos)%Z.
Proof.
  intros m0.
  destruct (procesar_medicion_celda_devuelve minimize_sin_iterar
              (analizador_inicial directorio_de_prueba) "X" m0 0)
    as (r & _ & Hp).
  eexists. split; [exact Hp|].
  exact (purga_todas_las_ventanas minimize_sin_iterar _ _ "X" m0 0%Z Hp).
Defined.


(** The first measurement of a subject: recorded, and kept by the
    purge. *)
Lemma ingestion_sin_validacion_witness :
  let m0 := celda_de_prueba "214" (-60) 0 in
  ∃ st1,
    procesar_medicion_celda minimize_sin_iterar
      (analizador_inicial directorio_de_prueba) "X" m0 0 = Devuelve st1 ∧
    triangulador st1 =
      agregar_medicion_celda
        (triangulador (analizador_inicial directorio_de_prueba)) m0 ∧
    mediciones_actuales st1 !!! "X" = filter (es_reciente 0) [m0].
Proof.
  intros m0.
  destruct (procesar_medicion_celda_devuelve minimize_sin_iterar
              (analizador_inicial directorio_de_prueba) "X" m0 0)
    as (r & _ & Hp).
  destruct (proj2 (proj2 (ingestion_sin_validacion minimize_sin_iterar
                            (analizador_inicial directorio_de_prueba)
                            "X" m0 0%Z)) _ Hp) as [Ht Hv].
  eexists. split; [exact Hp|]. split; [exact Ht|].
  cbn [analizador_inicial mediciones_actuales] in Hv.
  rewrite ventana_vacia in Hv. exact Hv.
Defined.


(** C3, counterexample.  A measurement whose four identifier fields are
    empty is accepted: the call returns, and both the history (under the
    key ["---"]) and the window of the subject have changed. *)
Lemma medicion_malformada_aceptada :
  let c := {| mcc := ""; mnc := ""; lac := ""; cell_id := "";
              arfcn := 0; bsic := 0; signal_strength := -70;
              celda_latitude := 0; celda_longitude := 0;
              celda_timestamp := 0; tipo_celda := "BCCH" |} in
  let st0 := analizador_inicial ∅ in
  ∃ st1,
    procesar_medicion_celda minimize_sin_iterar st0 "X" c 0 = Devuelve st1 ∧
    historial_mediciones (triangulador st0) !!! "---" = [] ∧
    historial_mediciones (triangulador st1) !!! "---" = [c] ∧
    mediciones_actuales st0 !!! "X" = [] ∧
    mediciones_actuales st1 !!! "X" = [c].
Proof.
  intros c st0.
  destruct (procesar_medicion_celda_devuelve minimize_sin_iterar st0 "X" c 0)
    as (r & _ & Hp).
  eexists. split; [exact Hp|].
  split; [apply ventana_vacia|]. split.
  - cbn. rewrite lookup_total_insert_eq, ventana_vacia. reflexivity.
  - split; [apply ventana_vacia|].
    cbn. rewrite ventana_tras_purga, lookup_total_insert_eq.
    unfold ventana_de_llamada. cbn. rewrite ventana_vacia. cbn [app].
    rewrite filter_cons_True by (unfold es_reciente, cinco_minutos; cbn; lia).
    reflexivity.
Qed.
End Escenarios.

(** ** The two-cell fallback *)

Section DosCeldas.
#[local] Open Scope R_scope.

Lemma haversine_a_ecuador (lon1 lon2 : R) :
  haversine_a 0 lon1 0 lon2 =
  sin (math_radians (lon2 - lon1) / 2) * sin (math_radians (lon2 - lon1) / 2).
Proof.
  unfold haversine_a, math_radians.
  replace ((0 - 0) * (PI / 180) / 2) with 0 by lra.
  replace (0 * (PI / 180)) with 0 by lra.
  rewrite sin_0, cos_0. ring.
Qed.

Lemma math_atan2_sin_cos (h : R) :
  0 <= h < PI / 2 -> math_atan2 (sin h) (cos h) = h.
Proof.
  intros [H0 H1]. unfold math_atan2.
  assert (Hc : 0 < cos h) by (apply cos_gt_0; lra).
  destruct (Rlt_dec 0 (cos h)); [|contradiction].
  change (sin h / cos h) with (tan h). apply atan_tan. lra.
Qed.

Lemma distancia_sobre_ecuador (lon1 lon2 : R) :
  0 <= math_radians (lon2 - lon1) < PI ->
  _calcular_distancia 0 lon1 0 lon2 =
  Devuelve (6371 * math_radians (lon2 - lon1)).
Proof.
  intros Hy. rewrite _calcular_distancia_devuelve, haversine_a_ecuador.
  set (h := math_radians (lon2 - lon1) / 2).
  assert (Hh : 0 <= h < PI / 2) by (unfold h; lra).
  assert (Hs : 0 <= sin h) by (apply sin_ge_0; lra).
  assert (Hc : 0 < cos h) by (apply cos_gt_0; lra).
  pose proof (sin2_cos2 h) as Hsc. unfold Rsqr in Hsc.
  replace (1 - sin h * sin h) with (cos h * cos h) by lra.
  rewrite !sqrt_square by lra.
  rewrite math_atan2_sin_cos by exact Hh.
  f_equal. unfold h. lra.
Qed.

Lemma radianes_lon_10km : math_radians (lon_10km - 0) = 10 / 6371.
Proof.
  unfold math_radians, lon_10km. field. apply PI_neq0.
Qed.

Lemma distancia_10km : _calcular_distancia 0 0 0 lon_10km = Devuelve 10.
Proof.
  rewrite distancia_sobre_ecuador.
  - rewrite radianes_lon_10km. f_equal. lra.
  - rewrite radianes_lon_10km. pose proof PI2_1. lra.
Qed.

Lemma ubicacion_10km_214 (h : gmap string (list CeldaGSM)) (rssi t : Z) :
  _obtener_ubicacion_celda
    {| estaciones_base := directorio_10km; historial_mediciones := h |}
    (celda_de_prueba "214" rssi t) = Some {| lat := 0; lon := 0 |}.
Proof.
  unfold _obtener_ubicacion_celda, directorio_10km. cbn.
  apply lookup_insert_eq.
Qed.

Lemma ubicacion_10km_215 (h : gmap string (list CeldaGSM)) (rssi t : Z) :
  _obtener_ubicacion_celda
    {| estaciones_base := directorio_10km; historial_mediciones := h |}
    (celda_de_prueba "215" rssi t) = Some {| lat := 0; lon := lon_10km |}.
Proof.
  unfold _obtener_ubicacion_celda, directorio_10km. cbn.
  rewrite lookup_insert_ne by discriminate. apply lookup_singleton_eq.
Qed.

(** The estimate of the two-cell method when the total strength is not
    positive. *)
Lemma dos_celdas_pesos_iguales (self : TrianguladorGSM) (c1 c2 : CeldaGSM)
    (u1 u2 : Ubicacion) (d : R) (ahora : Z) :
  (signal_strength c1 + signal_strength c2 <= 0)%Z ->
  _obtener_ubicacion_celda self c1 = Some u1 ->
  _obtener_ubicacion_celda self c2 = Some u2 ->
  _calcular_distancia (lat u1) (lon u1) (lat u2) (lon u2) = Devuelve d ->
  _estimar_ubicacion_2_celdas self [c1; c2] ahora =
  Devuelve (Some {| latitude := Some (lat u1 * (1 / 2) + lat u2 * (1 / 2));
                    longitude := Some (lon u1 * (1 / 2) + lon u2 * (1 / 2));
                    precision := Some (d * (1 / 2));
                    metodo := "2_CELDAS";
                    celdas_utilizadas := [c1; c2];
                    timestamp := ahora |}).
Proof.
  intros Hs H1 H2 Hd.
  unfold _estimar_ubicacion_2_celdas, celdas_con_ubicacion.
  cbn [length Nat.ltb Nat.leb omap list_omap]. rewrite H1, H2.
  cbn [fmap option_fmap option_map].
  apply Z.ltb_ge in Hs. rewrite Hs, Hd. reflexivity.
Qed.

(** C4, as amended.  For two resolved cells A with signal strength -60 and
    B with signal strength -90 whose coordinates are 10 km apart, the total
    strength -150 is not positive, so the two-cell fallback weighs both
    cells by 0.5: the estimate is the midpoint of the two coordinates, and
    its precision is 0.5 times the distance between the towers, that is
    5 km. *)
Theorem dos_celdas_menos60_menos90 (self : TrianguladorGSM) (cA cB : CeldaGSM)
    (uA uB : Ubicacion) (ahora : Z) :
  signal_strength cA = (-60)%Z ->
  signal_strength cB = (-90)%Z ->
  _obtener_ubicacion_celda self cA = Some uA ->
  _obtener_ubicacion_celda self cB = Some uB ->
  _calcular_distancia (lat uA) (lon uA) (lat uB) (lon uB) = Devuelve 10 ->
  exists u,
    _estimar_ubicacion_2_celdas self [cA; cB] ahora = Devuelve (Some u) /\
    latitude u = Some ((lat uA + lat uB) / 2) /\
    longitude u = Some ((lon uA + lon uB) / 2) /\
    precision u = Some 5 /\
    metodo u = "2_CELDAS" /\
    celdas_utilizadas u = [cA; cB].
Proof.
  intros HA HB H1 H2 Hd.
  eexists. split.
  - apply dos_celdas_pesos_iguales; eauto. rewrite HA, HB. lia.
  - cbn. repeat split; f_equal; lra.
Qed.

(** Two cells on the equator, 10 km apart. *)
Lemma dos_celdas_menos60_menos90_witness :
  let cA := celda_de_prueba "214" (-60) 0 in
  let cB := celda_de_prueba "215" (-90) 0 in
  let self := {| estaciones_base := directorio_10km;
                 historial_mediciones := ∅ |} in
  exists u,
    _estimar_ubicacion_2_celdas self [cA; cB] 0%Z = Devuelve (Some u) /\
    latitude u = Some ((0 + 0) / 2) /\
    longitude u = Some ((0 + lon_10km) / 2) /\
    precision u = Some 5.
Proof.
  intros cA cB self.
  destruct (dos_celdas_menos60_menos90 self cA cB
              {| lat := 0; lon := 0 |} {| lat := 0; lon := lon_10km |} 0%Z)
    as (u & Hu & Hla & Hlo & Hp & _).
  - reflexivity.
  - reflexivity.
  - apply ubicacion_10km_214.
  - apply ubicacion_10km_215.
  - exact distancia_10km.
  - exists u. auto.
Defined.

(** C4, counterexample.  A at (0, 0) with strength -60 and B on the
    equator 10 km east of it with strength -90: the estimate is as far
    from A as from B, so it is not strictly closer to A. *)
Lemma dos_celdas_equidistante :
  let cA := celda_de_prueba "214" (-60) 0 in
  let cB := celda_de_prueba "215" (-90) 0 in
  let self := {| estaciones_base := directorio_10km;
                 historial_mediciones := ∅ |} in
  _calcular_distancia 0 0 0 lon_10km = Devuelve 10 /\
  exists u la lo dA dB,
    _estimar_ubicacion_2_celdas self [cA; cB] 0%Z = Devuelve (Some u) /\
    latitude u = Some la /\ longitude u = Some lo /\
    _calcular_distancia la lo 0 0 = Devuelve dA /\
    _calcular_distancia la lo 0 lon_10km = Devuelve dB /\
    dA = dB /\ ~ dA < dB.
Proof.
  intros cA cB self. split; [exact distancia_10km|].
  eexists. eexists. eexists. eexists. eexists.
  split.
  { apply (dos_celdas_pesos_iguales self cA cB
             {| lat := 0; lon := 0 |} {| lat := 0; lon := lon_10km |} 10).
    - cbn. lia.
    - apply ubicacion_10km_214.
    - apply ubicacion_10km_215.
    - exact distancia_10km. }
  cbn [latitude longitude lat lon].
  split; [reflexivity|]. split; [reflexivity|].
  split; [apply _calcular_distancia_devuelve|].
  split; [apply _calcular_distancia_devuelve|].
  assert (Ha : haversine_a (0 * (1 / 2) + 0 * (1 / 2))
                 (0 * (1 / 2) + lon_10km * (1 / 2)) 0 0 =
               haversine_a (0 * (1 / 2) + 0 * (1 / 2))
                 (0 * (1 / 2) + lon_10km * (1 / 2)) 0 lon_10km).
  { unfold haversine_a, math_radians.
    replace ((lon_10km - (0 * (1 / 2) + lon_10km * (1 / 2))) * (PI / 180) / 2)
      with (- ((0 - (0 * (1 / 2) + lon_10km * (1 / 2))) * (PI / 180) / 2))
      by lra.
    rewrite sin_neg. ring. }
  rewrite Ha. split; [reflexivity|]. lra.
Qed.

End DosCeldas.

(** ** The centroid as a convex combination *)

Section Centroide.
#[local] Open Scope R_scope.

Lemma foldr_Rmin_le (v : R) (l : list R) :
  foldr Rmin v l <= v /\ Forall (fun x => foldr Rmin v l <= x) l.
Proof.
  induction l as [|x l [IH1 IH2]]; cbn [foldr].
  - split; [lra|constructor].
  - split.
    + pose proof (Rmin_r x (foldr Rmin v l)). lra.
    + constructor; [apply Rmin_l|].
      eapply Forall_impl; [exact IH2|]. cbn. intros y Hy.
      pose proof (Rmin_r x (foldr Rmin v l)). lra.
Qed.

Lemma foldr_Rmax_ge (v : R) (l : list R) :
  v <= foldr Rmax v l /\ Forall (fun x => x <= foldr Rmax v l) l.
Proof.
  induction l as [|x l [IH1 IH2]]; cbn [foldr].
  - split; [lra|constructor].
  - split.
    + pose proof (Rmax_r x (foldr Rmax v l)). lra.
    + constructor; [apply Rmax_l|].
      eapply Forall_impl; [exact IH2|]. cbn. intros y Hy.
      pose proof (Rmax_r x (foldr Rmax v l)). lra.
Qed.

Lemma minimo_maximo_cotas (l : list R) :
  Forall (fun x => minimo l <= x <= maximo l) l.
Proof.
  destruct l as [|v l]; [constructor|]. unfold minimo, maximo.
  destruct (foldr_Rmin_le v l) as [Hm1 Hm2].
  destruct (foldr_Rmax_ge v l) as [HM1 HM2].
  constructor; [lra|].
  apply Forall_forall. intros x Hx.
  rewrite Forall_forall in Hm2, HM2. split; auto.
Qed.

(** A weighted sum with non-negative weights lies between the bounds of
    the values, scaled by the sum of the weights. *)
Lemma suma_ponderada_cotas (lo hi : R) (a w : list R) :
  length a = length w ->
  Forall (fun x => lo <= x <= hi) a ->
  Forall (fun x => 0 <= x) w ->
  lo * suma w <= suma (zip_with Rmult a w) <= hi * suma w.
Proof.
  revert w. induction a as [|x a IH]; intros [|y w] Hlen Ha Hw;
    try discriminate.
  - cbn. lra.
  - inversion Ha as [|? ? Hx Ha']; subst. inversion Hw as [|? ? Hy Hw']; subst.
    cbn [zip_with]. rewrite !suma_cons.
    specialize (IH w ltac:(cbn in Hlen; lia) Ha' Hw'). nra.
Qed.

Lemma promedio_cotas (lo hi : R) (a w : list R) :
  length a = length w ->
  Forall (fun x => lo <= x <= hi) a ->
  Forall (fun x => 0 <= x) w ->
  0 < suma w ->
  lo <= promedio a w <= hi.
Proof.
  intros Hlen Ha Hw Hs. unfold promedio.
  destruct (suma_ponderada_cotas lo hi a w Hlen Ha Hw) as [H1 H2].
  assert (Hi : 0 < / suma w) by now apply Rinv_0_lt_compat.
  unfold Rdiv. split.
  - replace lo with (lo * suma w * / suma w) by (field; lra).
    apply Rmult_le_compat_r; lra.
  - replace hi with (hi * suma w * / suma w) by (field; lra).
    apply Rmult_le_compat_r; lra.
Qed.

Lemma suma_Z_positivos (l : list Z) :
  l <> [] -> Forall (fun p => 0 < p)%Z l -> (0 < suma_Z l)%Z.
Proof.
  intros Hne Hl. induction Hl as [|p l Hp Hl IH]; [contradiction|].
  rewrite suma_Z_cons. destruct l as [|q l].
  - cbn. lia.
  - specialize (IH ltac:(discriminate)). lia.
Qed.

Lemma pesos_centroide_positivos (l : list Z) :
  l <> [] -> Forall (fun p => 0 < p)%Z l ->
  pesos_centroide l = map (fun p => IZR p / IZR (suma_Z l)) l /\
  Forall (fun x => 0 <= x) (pesos_centroide l).
Proof.
  intros Hne Hl. pose proof (suma_Z_positivos l Hne Hl) as Hs.
  unfold pesos_centroide. rewrite (proj2 (Z.ltb_lt _ _) Hs).
  split; [reflexivity|].
  apply Forall_map. eapply Forall_impl; [exact Hl|]. cbn. intros p Hp.
  apply IZR_lt in Hs, Hp. apply Rlt_le, Rdiv_lt_0_compat; lra.
Qed.

(** Over the real numbers a convex combination of values lies between
    the least and the greatest of them. *)
Lemma combinacion_convexa_en_la_caja (a w : list R) :
  length a = length w ->
  Forall (fun x => 0 <= x) w ->
  suma w = 1 ->
  minimo a <= suma (zip_with Rmult a w) <= maximo a.
Proof.
  intros Hlen Hw Hs.
  pose proof (promedio_cotas (minimo a) (maximo a) a w Hlen
                (minimo_maximo_cotas a) Hw ltac:(lra)) as H.
  unfold promedio in H. rewrite Hs in H.
  replace (suma (zip_with Rmult a w) / 1) with (suma (zip_with Rmult a w))
    in H by field.
  exact H.
Qed.

Lemma pesos_en_int64_de_prueba (s1 s2 : Z) :
  en_int64 s1 -> en_int64 s2 -> en_int64 (s1 + s2) ->
  pesos_en_int64 [s1; s2].
Proof.
  intros H1 H2 H12. split.
  - constructor; [exact H1|]. constructor; [exact H2|constructor].
  - cbn. now rewrite Z.add_0_r.
Qed.

(** C7, as amended.  For 2 or more resolved pairs with positive signal
    strengths (that fit in 64 bits, as does their sum) the weighted
    centroid returns an estimate, without raising and never absence.  Its
    latitude and its longitude are the convex combinations of the
    latitudes and of the longitudes of the towers with the weights
    [s / sum]: each weight is positive and the weights add up to 1.  The
    returned numbers are these combinations up to the rounding of
    binary64; the box of the towers, which holds the exact combinations
    ([combinacion_convexa_en_la_caja]), is not promised for them. *)
Theorem centroide_combinacion_convexa (celdas : list (CeldaGSM * Ubicacion))
    (ahora : Z) :
  (2 <= length celdas)%nat ->
  Forall (fun p => 0 < signal_strength p.1)%Z celdas ->
  pesos_en_int64 (map (fun p => signal_strength p.1) celdas) ->
  let lats := map (fun p => lat p.2) celdas in
  let lons := map (fun p => lon p.2) celdas in
  let ss := map (fun p => signal_strength p.1) celdas in
  let pesos := map (fun s => IZR s / IZR (suma_Z ss)) ss in
  Forall (fun w => 0 < w) pesos /\
  suma pesos = 1 /\
  exists u,
    _metodo_centroide celdas ahora = Devuelve u /\
    latitude u = Some (suma (zip_with Rmult lats pesos)) /\
    longitude u = Some (suma (zip_with Rmult lons pesos)).
Proof.
  intros Hlen Hpos _ lats lons ss pesos.
  assert (Hne : celdas <> []) by (intros ->; cbn in Hlen; lia).
  assert (Hss : ss <> [])
    by (unfold ss; destruct celdas; [contradiction|discriminate]).
  assert (Hp : Forall (fun p => 0 < p)%Z ss) by (unfold ss; now apply Forall_map).
  pose proof (suma_Z_positivos ss Hss Hp) as Hsum.
  destruct (pesos_centroide_positivos ss Hss Hp) as [Hw _].
  fold pesos in Hw.
  pose proof (suma_pesos_centroide ss Hss) as Hs. rewrite Hw in Hs.
  split.
  { unfold pesos. apply Forall_map. eapply Forall_impl; [exact Hp|].
    cbn. intros p Hp0. apply IZR_lt in Hsum, Hp0.
    apply Rdiv_lt_0_compat; lra. }
  split; [exact Hs|].
  eexists. split; [apply _metodo_centroide_devuelve; exact Hne|].
  cbn [latitude longitude]. fold ss lats lons. rewrite Hw.
  unfold promedio. rewrite Hs. split; f_equal; field.
Qed.

(** Two towers with the signal strengths 10 and 30. *)
Lemma centroide_combinacion_convexa_witness :
  let celdas := [par_de_prueba 10 40 (-3); par_de_prueba 30 41 (-4)] in
  (2 <= length celdas)%nat /\
  Forall (fun p => 0 < signal_strength p.1)%Z celdas /\
  pesos_en_int64 [10; 30]%Z /\
  exists u,
    _metodo_centroide celdas 0%Z = Devuelve u /\
    latitude u =
      Some (suma (zip_with Rmult [40; 41]
                    (map (fun s => IZR s / IZR (suma_Z [10; 30]%Z))
                         [10; 30]%Z))).
Proof.
  intros celdas.
  assert (H2 : (2 <= length celdas)%nat) by (cbn; lia).
  assert (Hp : Forall (fun p => 0 < signal_strength p.1)%Z celdas)
    by (repeat constructor).
  assert (Hi : pesos_en_int64 [10; 30]%Z)
    by (apply pesos_en_int64_de_prueba; unfold en_int64; lia).
  split; [exact H2|]. split; [exact Hp|]. split; [exact Hi|].
  destruct (centroide_combinacion_convexa celdas 0%Z H2 Hp Hi)
    as (_ & _ & u & Hu & Hla & _).
  exists u. split; [exact Hu|exact Hla].
Defined.

End Centroide.

(** ** The weights of the centroid *)

Section PesosCentroide.
#[local] Open Scope R_scope.






End PesosCentroide.

(** ** The combiner on finite estimates *)

Section Combinacion.
#[local] Open Scope R_scope.

Lemma peso_inverso_positivo (p : R) : 0 <= p -> 0 < peso_inverso p.
Proof.
  intros Hp. unfold peso_inverso. apply Rdiv_lt_0_compat; lra.
Qed.

Lemma suma_positivos (l : list R) :
  l <> [] -> Forall (fun x => 0 < x) l -> 0 < suma l.
Proof.
  intros Hne Hl. induction Hl as [|x l Hx Hl IH]; [contradiction|].
  rewrite suma_cons. destruct l as [|y l].
  - cbn. lra.
  - specialize (IH ltac:(discriminate)). lra.
Qed.

Lemma suma_pesos_inversos_positiva (ps : list R) :
  ps <> [] -> Forall (fun p => 0 <= p) ps -> 0 < suma (map peso_inverso ps).
Proof.
  intros Hne Hps. apply suma_positivos.
  - destruct ps; [contradiction|discriminate].
  - apply Forall_map. eapply Forall_impl; [exact Hps|].
    intros p. apply peso_inverso_positivo.
Qed.

Lemma pesos_inversos_finitos (ps : list R) :
  Forall (fun p => 0 <= p) ps ->
  pesos_inversos (Some <$> ps) = Some <$> map peso_inverso ps.
Proof.
  unfold pesos_inversos. induction 1 as [|p ps Hp _ IH]; [reflexivity|].
  cbn [fmap list_fmap map]. cbn [fl_add fl_lift2].
  rewrite fl_div_finito by lra. f_equal. exact IH.
Qed.

Lemma pesos_combinacion_finitos (ps : list R) :
  ps <> [] -> Forall (fun p => 0 <= p) ps ->
  pesos_combinacion (Some <$> ps) = Some <$> pesos_por_precision ps.
Proof.
  intros Hne Hps. unfold pesos_combinacion.
  pose proof (suma_pesos_inversos_positiva ps Hne Hps) as Hs.
  rewrite pesos_inversos_finitos by exact Hps.
  rewrite np_sum_finito. rewrite map_fl_div_finito by lra.
  unfold pesos_por_precision. f_equal. apply map_map.
Qed.

Lemma suma_pesos_por_precision (ps : list R) :
  ps <> [] -> Forall (fun p => 0 <= p) ps ->
  suma (pesos_por_precision ps) = 1.
Proof.
  intros Hne Hps.
  pose proof (suma_pesos_inversos_positiva ps Hne Hps) as Hs.
  unfold pesos_por_precision.
  rewrite <- (map_map peso_inverso (fun w => w / suma (map peso_inverso ps))).
  rewrite suma_map_entre. field. lra.
Qed.

Lemma pesos_por_precision_positivos (ps : list R) :
  ps <> [] -> Forall (fun p => 0 <= p) ps ->
  Forall (fun w => 0 < w) (pesos_por_precision ps).
Proof.
  intros Hne Hps.
  pose proof (suma_pesos_inversos_positiva ps Hne Hps) as Hs.
  unfold pesos_por_precision. apply Forall_map.
  eapply Forall_impl; [exact Hps|]. cbn. intros p Hp.
  apply Rdiv_lt_0_compat; [now apply peso_inverso_positivo|exact Hs].
Qed.

Lemma campos_finitos (rs : list UbicacionEstimada) :
  Forall estimacion_finita rs ->
  map latitude rs = Some <$> map (fun u => valor (latitude u)) rs /\
  map longitude rs = Some <$> map (fun u => valor (longitude u)) rs /\
  map precision rs = Some <$> map (fun u => valor (precision u)) rs /\
  Forall (fun p => 0 <= p) (map (fun u => valor (precision u)) rs).
Proof.
  induction 1 as [|u rs (la & lo & p & Hla & Hlo & Hp & Hp0) _ IH].
  - repeat split; constructor.
  - destruct IH as (IH1 & IH2 & IH3 & IH4).
    cbn [map fmap list_fmap]. rewrite Hla, Hlo, Hp. cbn [valor default].
    repeat split; try (f_equal; assumption).
    constructor; assumption.
Qed.

Lemma media_combinada_finita (a ps : list R) :
  ps <> [] -> Forall (fun p => 0 <= p) ps -> length a = length ps ->
  let pesos := pesos_combinacion (Some <$> ps) in
  fl_div (np_sum (zip_with fl_mul (Some <$> a) pesos)) (np_sum pesos)
  = Some (suma (zip_with Rmult a (pesos_por_precision ps))).
Proof.
  intros Hne Hps Hlen pesos. unfold pesos.
  rewrite pesos_combinacion_finitos by assumption.
  rewrite zip_fl_mul_finito, !np_sum_finito.
  rewrite suma_pesos_por_precision by assumption.
  rewrite fl_div_finito by lra. f_equal. field.
Qed.

Lemma pesos_por_precision_1_0001 :
  pesos_por_precision [1; 1 / 1000] = [2 / 1003; 1001 / 1003].
Proof.
  unfold pesos_por_precision, peso_inverso. cbn [map].
  rewrite !suma_cons. change (suma []) with 0.
  f_equal; [field|]. f_equal. field.
Qed.

(** C6, as amended.  For every non-empty list of estimates with finite
    coordinates and a finite precision that is not negative, the combiner
    weighs each input by [1 / (precision + 0.001)] divided by the sum of
    these, so that the weights are positive and add up to 1; the position
    is the weighted mean of the latitudes and of the longitudes, the
    precision is the weighted mean of the precisions, the method is
    ["COMBINADO"], and the measurements are the concatenation of those of
    the inputs, duplicates kept.  For the precisions 1 and 0.001 the
    weights are 2/1003 and 1001/1003, a ratio of 500.5 to 1, and the
    position is [(2 * first + 1001 * second) / 1003]. *)
Theorem combinacion_ponderada_por_precision
    (resultados : list UbicacionEstimada) (ahora : Z) :
  resultados <> [] ->
  Forall estimacion_finita resultados ->
  let lats := map (fun u => valor (latitude u)) resultados in
  let lons := map (fun u => valor (longitude u)) resultados in
  let ps := map (fun u => valor (precision u)) resultados in
  let pesos := pesos_por_precision ps in
  pesos_combinacion (map precision resultados) = Some <$> pesos /\
  suma pesos = 1 /\
  Forall (fun w => 0 < w) pesos /\
  exists u,
    _combinar_resultados resultados ahora = Devuelve u /\
    latitude u = Some (suma (zip_with Rmult lats pesos)) /\
    longitude u = Some (suma (zip_with Rmult lons pesos)) /\
    precision u = Some (suma (zip_with Rmult ps pesos)) /\
    metodo u = "COMBINADO" /\
    celdas_utilizadas u = concat (map celdas_utilizadas resultados) /\
    (ps = [1; 1 / 1000] ->
     pesos = [2 / 1003; 1001 / 1003] /\
     forall la1 la2 lo1 lo2,
       lats = [la1; la2] -> lons = [lo1; lo2] ->
       latitude u = Some ((2 * la1 + 1001 * la2) / 1003) /\
       longitude u = Some ((2 * lo1 + 1001 * lo2) / 1003)).
Proof.
  intros Hne Hfin lats lons ps pesos.
  destruct (campos_finitos resultados Hfin) as (Hla & Hlo & Hp & Hp0).
  fold lats in Hla. fold lons in Hlo. fold ps in Hp, Hp0.
  assert (Hps : ps <> [])
    by (unfold ps; destruct resultados; [contradiction|discriminate]).
  split; [rewrite Hp; now apply pesos_combinacion_finitos|].
  split; [now apply suma_pesos_por_precision|].
  split; [now apply pesos_por_precision_positivos|].
  eexists. split; [apply _combinar_resultados_devuelve; exact Hne|].
  cbn [latitude longitude precision metodo celdas_utilizadas].
  rewrite Hla, Hlo, Hp.
  assert (Hmedia : forall a : list R, length a = length ps ->
            fl_div (np_sum (zip_with fl_mul (Some <$> a)
                              (pesos_combinacion (Some <$> ps))))
                   (np_sum (pesos_combinacion (Some <$> ps)))
            = Some (suma (zip_with Rmult a pesos))).
  { intros a Ha. now apply media_combinada_finita. }
  rewrite !Hmedia by (unfold lats, lons, ps; now rewrite !length_map).
  repeat (split; [reflexivity|]).
  intros Hps1. unfold pesos. rewrite Hps1, pesos_por_precision_1_0001.
  split; [reflexivity|].
  intros la1 la2 lo1 lo2 -> ->. cbn [zip_with]. rewrite !suma_cons.
  change (suma []) with 0. split; f_equal; field.
Qed.

(** Two estimates with the precisions 1 and 0.001. *)
Lemma combinacion_ponderada_por_precision_witness :
  let c := celda_de_prueba "214" (-70) 0 in
  let resultados := [estimacion_de_prueba 40 (-3) 1 [c];
                     estimacion_de_prueba 41 (-4) (1 / 1000) [c]] in
  resultados <> [] /\
  Forall estimacion_finita resultados /\
  exists u,
    _combinar_resultados resultados 0%Z = Devuelve u /\
    latitude u = Some ((2 * 40 + 1001 * 41) / 1003) /\
    longitude u = Some ((2 * (-3) + 1001 * (-4)) / 1003) /\
    metodo u = "COMBINADO" /\
    celdas_utilizadas u = [c; c].
Proof.
  intros c resultados.
  assert (Hne : resultados <> []) by discriminate.
  assert (Hfin : Forall estimacion_finita resultados).
  { repeat constructor.
    - exists 40, (-3), 1. repeat split; lra.
    - exists 41, (-4), (1 / 1000). repeat split; lra. }
  split; [exact Hne|]. split; [exact Hfin|].
  destruct (combinacion_ponderada_por_precision resultados 0%Z Hne Hfin)
    as (_ & _ & _ & u & Hu & _ & _ & _ & Hm & Hc & Hdos).
  destruct (Hdos eq_refl) as [_ Hpos].
  destruct (Hpos 40 41 (-3) (-4) eq_refl eq_refl) as [Hla Hlo].
  exists u. repeat split; assumption.
Defined.

(** C6, counterexample.  For the precisions 1 and 0.001 the ratio of the
    two weights is 1001/2 = 500.5; it is not within 499 of 1000.  And for
    an input whose precision is NaN, as the centroid can produce, the
    weights are NaN and so are the position and the precision of the
    result. *)
Lemma combinacion_razon_de_pesos :
  (exists w1 w2 : R,
     pesos_combinacion [Some 1; Some (1 / 1000)] = [Some w1; Some w2] /\
     w2 / w1 = 1001 / 2 /\
     ~ Rabs (w2 / w1 - 1000) <= 499) /\
  (exists u,
     _combinar_resultados
       [{| latitude := Some 40; longitude := Some (-3); precision := None;
           metodo := "CENTROIDE";
           celdas_utilizadas := [celda_de_prueba "214" (-70) 0];
           timestamp := 0 |}] 0%Z = Devuelve u /\
     latitude u = None /\ longitude u = None /\ precision u = None).
Proof.
  split.
  - exists (2 / 1003), (1001 / 1003).
    split.
    + change [Some 1; Some (1 / 1000)] with (Some <$> [1; 1 / 1000]).
      rewrite pesos_combinacion_finitos.
      * now rewrite pesos_por_precision_1_0001.
      * discriminate.
      * repeat constructor; lra.
    + assert (Hr : 1001 / 1003 / (2 / 1003) = 1001 / 2) by field.
      split; [exact Hr|]. rewrite Hr.
      rewrite Rabs_left by lra. lra.
  - eexists. split; [apply _combinar_resultados_devuelve; discriminate|].
    cbn. repeat split; reflexivity.
Qed.

End Combinacion.

(** ** The square roots of the haversine formula *)

Section Radicandos.
#[local] Open Scope R_scope.

(** Over the real numbers [a] lies in [0, 1] for all coordinates, so does
    [1 - a], and the value of the formula is
    [6371 * 2 * atan2(sqrt a, sqrt (1 - a))]: only rounding can take a
    radicand out of the range. *)
Lemma haversine_radicandos_exactos (lat1 lon1 lat2 lon2 : R) :
  let a := haversine_a lat1 lon1 lat2 lon2 in
  0 <= a <= 1 /\ 0 <= 1 - a <= 1 /\
  math_sqrt a = Devuelve (sqrt a) /\
  math_sqrt (1 - a) = Devuelve (sqrt (1 - a)) /\
  _calcular_distancia lat1 lon1 lat2 lon2 =
  Devuelve (6371 * (2 * math_atan2 (sqrt a) (sqrt (1 - a)))).
Proof.
  intros a. pose proof (haversine_a_rango lat1 lon1 lat2 lon2) as Ha.
  fold a in Ha.
  split; [exact Ha|]. split; [lra|].
  split; [apply math_sqrt_devuelve; lra|].
  split; [apply math_sqrt_devuelve; lra|].
  apply _calcular_distancia_devuelve.
Qed.

End Radicandos.

(** ** Rounding in binary64 *)

Module Redondeo.
  Import PrimFloat.

(** With any [math.sin] and [math.cos] that return these four values, the
    variable [a] of the points (8, 0) and (-8, 180) is 1 + 2^-52. *)
Lemma haversine_a_antipodas (math_sin math_cos : float -> float) :
  math_sin (Binario64.math_radians (-8 - 8) / 2)%float
    = (-0x1.1d06c968d9e19p-3)%float ->
  math_sin (Binario64.math_radians (180 - 0) / 2)%float = 1%float ->
  math_cos (Binario64.math_radians 8)%float = 0x1.fb046a930947ap-1%float ->
  math_cos (Binario64.math_radians (-8))%float
    = 0x1.fb046a930947ap-1%float ->
  Binario64.haversine_a math_sin math_cos 8%float 0%float (-8)%float 180%float
  = 0x1.0000000000001p+0%float.
Proof.
  intros Hs1 Hs2 Hc1 Hc2. unfold Binario64.haversine_a. cbv zeta.
  rewrite Hs1, Hs2, Hc1, Hc2. vm_compute. reflexivity.
Qed.

(** C8.  [_calcular_distancia] applies no clamp, and the computation can
    fault: in binary64, for the antipodal points (8, 0) and (-8, 180),
    [a] is rounded to 1 + 2^-52, so the first square root receives a value
    above 1 and the second the negative value [1 - a], on which
    [math.sqrt] raises [ValueError]. *)
Theorem haversine_binario64_fuera_de_rango :
  let a := Binario64.haversine_a Binario64.glibc_sin Binario64.glibc_cos
             8%float 0%float (-8)%float 180%float in
  a = 0x1.0000000000001p+0%float /\
  (1 <? a)%float = true /\
  (1 - a <? 0)%float = true /\
  Binario64.raices_definidas Binario64.glibc_sin Binario64.glibc_cos
    8%float 0%float (-8)%float 180%float = false.
Proof.
  intros a.
  assert (Ha : a = 0x1.0000000000001p+0%float)
    by (apply haversine_a_antipodas; vm_compute; reflexivity).
  split; [exact Ha|].
  unfold Binario64.raices_definidas. fold a. rewrite Ha.
  vm_compute. repeat split; reflexivity.
Qed.

(** C7, counterexample.  Two towers at the latitude 40.1 (the float
    0x1.40ccccccccccdp+5) with the signal strengths 1 and 4: the weights
    are 0.2 and 0.8, their sum is 1, and the latitude that the centroid
    returns is the next float above 40.1, outside the box of the towers,
    whose least and greatest latitude are both 40.1. *)
Lemma centroide_binario64_fuera_de_la_caja :
  let lat_torres := 0x1.40ccccccccccdp+5%float in
  let la := Binario64.lat_centroide_2 1 4 5 lat_torres lat_torres in
  la = 0x1.40ccccccccccep+5%float /\
  (lat_torres <? la)%float = true /\
  (la <=? lat_torres)%float = false.
Proof. vm_compute. repeat split; reflexivity. Qed.

End Redondeo.

(** ** The invariant of the estimates *)

Section Invariante.
#[local] Open Scope R_scope.

Lemma math_atan2_no_negativo (y x : R) :
  0 <= y -> 0 <= x -> 0 <= math_atan2 y x.
Proof.
  intros Hy Hx. unfold math_atan2.
  destruct (Rlt_dec 0 x) as [Hpos|_].
  - destruct (Req_dec_T y 0) as [->|Hy0].
    + unfold Rdiv. rewrite Rmult_0_l, atan_0. lra.
    + assert (0 < y / x) by (apply Rdiv_lt_0_compat; lra).
      pose proof (atan_increasing 0 (y / x) H) as Hat.
      rewrite atan_0 in Hat. lra.
  - destruct (Rlt_dec x 0); [lra|].
    destruct (Rlt_dec 0 y); [pose proof PI2_RGT_0; lra|].
    destruct (Rlt_dec y 0); lra.
Qed.

Lemma distancia_no_negativa (lat1 lon1 lat2 lon2 d : R) :
  _calcular_distancia lat1 lon1 lat2 lon2 = Devuelve d -> 0 <= d.
Proof.
  rewrite _calcular_distancia_devuelve. intros [= <-].
  pose proof (math_atan2_no_negativo
                (sqrt (haversine_a lat1 lon1 lat2 lon2))
                (sqrt (1 - haversine_a lat1 lon1 lat2 lon2))
                (sqrt_pos _) (sqrt_pos _)).
  lra.
Qed.

Lemma sumar_errores_no_negativo {A : Type} (error : A -> resultado R)
    (l : list A) :
  (forall c v, error c = Devuelve v -> 0 <= v) ->
  forall acc v, 0 <= acc -> sumar_errores error l acc = Devuelve v -> 0 <= v.
Proof.
  intros Herr. induction l as [|c l IH]; intros acc v Hacc Hv.
  - cbn in Hv. injection Hv as <-. exact Hacc.
  - cbn [sumar_errores] in Hv.
    destruct (error c) as [e|ex] eqn:E; [|discriminate].
    cbn in Hv. apply (IH (acc + e) v); [|exact Hv].
    specialize (Herr c e E). lra.
Qed.

Lemma sumar_errores_total {A : Type} (error : A -> resultado R) (l : list A) :
  (forall c, exists v, error c = Devuelve v) ->
  forall acc, exists v, sumar_errores error l acc = Devuelve v.
Proof.
  intros Herr. induction l as [|c l IH]; intros acc.
  - eexists; reflexivity.
  - cbn [sumar_errores]. destruct (Herr c) as [e ->]. cbn. apply IH.
Qed.

Lemma funcion_error_rssi_no_negativa (celdas : list (CeldaGSM * Ubicacion))
    (posicion : R * R) (v : R) :
  funcion_error_rssi celdas posicion = Devuelve v -> 0 <= v.
Proof.
  destruct posicion as [la lo]. unfold funcion_error_rssi.
  apply sumar_errores_no_negativo; [|lra].
  intros [c u] e. rewrite _calcular_distancia_devuelve. cbn.
  intros [= <-]. apply Rabs_pos.
Qed.

Lemma funcion_error_rssi_total (celdas : list (CeldaGSM * Ubicacion))
    (posicion : R * R) :
  exists v, funcion_error_rssi celdas posicion = Devuelve v.
Proof.
  destruct posicion as [la lo]. unfold funcion_error_rssi.
  apply sumar_errores_total.
  intros [c u]. rewrite _calcular_distancia_devuelve. cbn. eexists; reflexivity.
Qed.

Lemma funcion_error_toa_no_negativa (tiempos : list (R * R * R))
    (posicion : R * R) (v : R) :
  funcion_error_toa tiempos posicion = Devuelve v -> 0 <= v.
Proof.
  destruct posicion as [la lo]. unfold funcion_error_toa.
  apply sumar_errores_no_negativo; [|lra].
  intros [[la_bs lo_bs] t] e. rewrite _calcular_distancia_devuelve. cbn.
  intros [= <-]. apply Rabs_pos.
Qed.

End Invariante.

Section InvarianteEstimadores.
#[local] Open Scope R_scope.

Variable minimize :
  (R * R → resultado R) → flotante * flotante → cotas → OptimizeResult.

Hypothesis minimize_cumple : contrato_minimize minimize.

Lemma _triangulacion_rssi_invariante (celdas : list (CeldaGSM * Ubicacion))
    (ahora : Z) (u : UbicacionEstimada) :
  celdas <> [] ->
  _triangulacion_rssi minimize celdas ahora = Some u ->
  invariante_estimacion u.
Proof.
  intros Hne. unfold _triangulacion_rssi.
  match goal with |- context [res_success ?r] => set (res := r) end.
  destruct (res_success res) eqn:Hok; [|discriminate].
  intros [= <-]. destruct (minimize_cumple _ _ _ Hok) as (la & lo & v & _ & Hf & Hv).
  split; cbn.
  - exists v. split; [exact Hf|]. eapply funcion_error_rssi_no_negativa, Hv.
  - destruct celdas; [contradiction|discriminate].
Qed.

Lemma _triangulacion_toa_invariante (celdas : list (CeldaGSM * Ubicacion))
    (ahora : Z) (u : UbicacionEstimada) :
  celdas <> [] ->
  _triangulacion_toa minimize celdas ahora = Some u ->
  invariante_estimacion u.
Proof.
  intros Hne. unfold _triangulacion_toa.
  match goal with |- context [res_success ?r] => set (res := r) end.
  destruct (res_success res) eqn:Hok; [|discriminate].
  intros [= <-]. destruct (minimize_cumple _ _ _ Hok) as (la & lo & v & _ & Hf & Hv).
  split; cbn.
  - exists v. split; [exact Hf|]. eapply funcion_error_toa_no_negativa, Hv.
  - destruct celdas; [contradiction|discriminate].
Qed.

Lemma pesos_centroide_no_negativos (ss : list Z) :
  ss <> [] -> pesos_sin_signo_mixto ss ->
  Forall (fun w => 0 <= w) (pesos_centroide ss).
Proof.
  intros Hne [Hpos|Hsum].
  - now apply pesos_centroide_positivos.
  - unfold pesos_centroide. rewrite (proj2 (Z.ltb_ge _ _) Hsum).
    apply Forall_replicate.
    assert (0 < INR (length ss))
      by (apply lt_0_INR; destruct ss; [contradiction|cbn; lia]).
    apply Rlt_le, Rdiv_lt_0_compat; lra.
Qed.

Lemma desviaciones2_no_negativas (l : list R) (c : R) :
  Forall (fun x => 0 <= x) (desviaciones2 l c).
Proof.
  unfold desviaciones2. apply Forall_map, Forall_forall. intros v _. cbn.
  apply (Rle_0_sqr (v - c)).
Qed.

Lemma promedio_no_negativo (a w : list R) :
  length a = length w ->
  Forall (fun x => 0 <= x) a ->
  Forall (fun x => 0 <= x) w ->
  0 < suma w ->
  0 <= promedio a w.
Proof.
  intros Hlen Ha Hw Hs.
  assert (H0 : 0 <= suma (zip_with Rmult a w)).
  { clear Hs. revert w Hlen Hw. induction Ha as [|x a Hx Ha IH];
      intros [|y w] Hlen Hw; try discriminate; [cbn; lra|].
    inversion Hw as [|? ? Hy Hw']; subst. cbn [zip_with]. rewrite suma_cons.
    specialize (IH w ltac:(cbn in Hlen; lia) Hw'). nra. }
  unfold promedio. apply Rmult_le_pos; [exact H0|].
  apply Rlt_le, Rinv_0_lt_compat, Hs.
Qed.

Lemma _metodo_centroide_invariante (celdas : list (CeldaGSM * Ubicacion))
    (ahora : Z) :
  celdas <> [] ->
  pesos_en_int64 (map (fun p => signal_strength p.1) celdas) ->
  pesos_sin_signo_mixto (map (fun p => signal_strength p.1) celdas) ->
  exists u, _metodo_centroide celdas ahora = Devuelve u /\
            invariante_estimacion u.
Proof.
  intros Hne _ Hss.
  set (ss := map (fun p => signal_strength p.1) celdas) in *.
  assert (Hssne : ss <> [])
    by (unfold ss; destruct celdas; [contradiction|discriminate]).
  pose proof (pesos_centroide_no_negativos ss Hssne Hss) as Hw.
  pose proof (suma_pesos_centroide ss Hssne) as Hs.
  eexists. split; [apply _metodo_centroide_devuelve; exact Hne|].
  split; cbn [precision celdas_utilizadas].
  - fold ss.
    match goal with |- context [np_sqrt (Some ?x)] => set (var := x) end.
    assert (Hvar : 0 <= var).
    { unfold var. apply Rplus_le_le_0_compat; apply promedio_no_negativo;
        try apply desviaciones2_no_negativas; try exact Hw; try lra;
        unfold desviaciones2, ss;
        now rewrite length_pesos_centroide, !length_map. }
    exists (sqrt var). unfold np_sqrt.
    destruct (Rlt_dec var 0); [lra|]. split; [reflexivity|apply sqrt_pos].
  - destruct celdas; [contradiction|discriminate].
Qed.

End InvarianteEstimadores.

Section InvarianteCombinador.
#[local] Open Scope R_scope.

Lemma _estimar_ubicacion_2_celdas_invariante (self : TrianguladorGSM)
    (celdas : list CeldaGSM) (ahora : Z) (u : UbicacionEstimada) :
  _estimar_ubicacion_2_celdas self celdas ahora = Devuelve (Some u) ->
  invariante_estimacion u.
Proof.
  unfold _estimar_ubicacion_2_celdas.
  destruct (length celdas <? 2)%nat eqn:Hlen; [discriminate|].
  apply Nat.ltb_ge in Hlen.
  destruct (celdas_con_ubicacion self celdas) as [|[c1 u1] [|[c2 u2] l]];
    try discriminate.
  destruct (_calcular_distancia (lat u1) (lon u1) (lat u2) (lon u2))
    as [d|e] eqn:Hd.
  - apply distancia_no_negativa in Hd.
    destruct (0 <? signal_strength c1 + signal_strength c2)%Z;
      cbn; intros [= <-]; (split; cbn;
        [exists (d * (1 / 2)); split; [reflexivity|lra]
        |intros ->; cbn in Hlen; lia]).
  - destruct (0 <? signal_strength c1 + signal_strength c2)%Z; discriminate.
Qed.

Lemma precisiones_finitas (rs : list UbicacionEstimada) :
  Forall invariante_estimacion rs ->
  exists ps, map precision rs = Some <$> ps /\ Forall (fun p => 0 <= p) ps.
Proof.
  induction 1 as [|u rs [(p & Hp & Hp0) _] _ (ps & IH1 & IH2)].
  - exists []. split; [reflexivity|constructor].
  - exists (p :: ps). cbn [map fmap list_fmap]. rewrite Hp.
    split; [f_equal; exact IH1|constructor; assumption].
Qed.

Lemma suma_ponderada_no_negativa (a w : list R) :
  Forall (fun x => 0 <= x) a -> Forall (fun x => 0 < x) w ->
  0 <= suma (zip_with Rmult a w).
Proof.
  intros Ha. revert w. induction Ha as [|x a Hx Ha IH]; intros [|y w] Hw;
    try (cbn; lra).
  inversion Hw as [|? ? Hy Hw']; subst. cbn [zip_with]. rewrite suma_cons.
  specialize (IH w Hw'). nra.
Qed.

Lemma _combinar_resultados_invariante (resultados : list UbicacionEstimada)
    (ahora : Z) :
  resultados <> [] ->
  Forall invariante_estimacion resultados ->
  exists u, _combinar_resultados resultados ahora = Devuelve u /\
            invariante_estimacion u.
Proof.
  intros Hne Hinv.
  destruct (precisiones_finitas resultados Hinv) as (ps & Hps & Hps0).
  assert (Hpsne : ps <> []).
  { intros ->. destruct resultados; [contradiction|discriminate]. }
  eexists. split; [apply _combinar_resultados_devuelve; exact Hne|].
  split; cbn [precision celdas_utilizadas].
  - rewrite Hps, media_combinada_finita by auto.
    eexists. split; [reflexivity|].
    apply suma_ponderada_no_negativa;
      [exact Hps0|now apply pesos_por_precision_positivos].
  - destruct Hinv as [|u rs [_ Hu] _]; [contradiction|].
    cbn. destruct (celdas_utilizadas u); [contradiction|discriminate].
Qed.

Section ConOptimizador.

Variable minimize :
  (R * R → resultado R) → flotante * flotante → cotas → OptimizeResult.

Hypothesis minimize_cumple : contrato_minimize minimize.

Lemma agregar_si_invariante (r : option UbicacionEstimada)
    (rs : list UbicacionEstimada) :
  (forall u, r = Some u -> invariante_estimacion u) ->
  Forall invariante_estimacion rs ->
  Forall invariante_estimacion (agregar_si r rs).
Proof.
  intros Hr Hrs. destruct r as [u|]; [|exact Hrs].
  cbn. apply Forall_app. split; [exact Hrs|]. constructor; auto.
Qed.

Lemma triangular_ubicacion_invariante (self : TrianguladorGSM)
    (mediciones : list CeldaGSM) (ahora : Z) (u : UbicacionEstimada) :
  pesos_en_int64
    (map (fun p => signal_strength p.1)
         (celdas_con_ubicacion self mediciones)) ->
  pesos_sin_signo_mixto
    (map (fun p => signal_strength p.1)
         (celdas_con_ubicacion self mediciones)) ->
  triangular_ubicacion minimize self mediciones ahora = Devuelve (Some u) ->
  invariante_estimacion u.
Proof.
  intros Hi Hss. unfold triangular_ubicacion.
  destruct (length mediciones <? 3)%nat;
    [apply _estimar_ubicacion_2_celdas_invariante|].
  set (cu := celdas_con_ubicacion self mediciones) in *.
  destruct (length cu <? 2)%nat eqn:E; [discriminate|].
  apply Nat.ltb_ge in E.
  assert (Hcu : cu <> []) by (intros Hnil; rewrite Hnil in E; cbn in E; lia).
  destruct (_metodo_centroide_invariante cu ahora Hcu Hi Hss)
    as (uc & -> & Huc).
  cbn [mbind resultado_bind].
  match goal with
  | |- context [agregar_si (Some uc) ?l] =>
      assert (Hall : Forall invariante_estimacion (agregar_si (Some uc) l));
      [|destruct (agregar_si (Some uc) l) as [|r0 rs] eqn:El]
  end.
  - apply agregar_si_invariante; [now intros ? [= <-]|].
    apply agregar_si_invariante;
      [intros ?; now apply _triangulacion_toa_invariante|].
    apply agregar_si_invariante;
      [intros ?; now apply _triangulacion_rssi_invariante|constructor].
  - discriminate.
  - destruct (_combinar_resultados_invariante (r0 :: rs) ahora
                ltac:(discriminate) Hall) as (uf & -> & Huf).
    cbn. now intros [= <-].
Qed.

End ConOptimizador.

End InvarianteCombinador.

Section InvarianteEstimaciones.
#[local] Open Scope R_scope.

Lemma minimize_sin_iterar_cumple : contrato_minimize minimize_sin_iterar.
Proof.
  intros f [[la|] [lo|]] b; unfold minimize_sin_iterar; try discriminate.
  destruct (f (la, lo)) as [v|e] eqn:E; [|discriminate].
  intros _. exists la, lo, v. cbn. auto.
Qed.

(** C9, as amended.  With an optimiser that, on success, reports a finite
    point and the value of the objective there: every estimate of the
    RSSI and of the TOA method from a non-empty list of pairs, every
    estimate of the centroid from a non-empty list whose signal strengths
    fit in 64 bits, as does their sum, and are all positive or have a sum
    that is not positive, every estimate of the two-cell fallback, every
    result of the combiner on a non-empty list of estimates that satisfy
    the invariant, and every result of [triangular_ubicacion] under the
    same conditions on the strengths of the resolved cells, has a finite
    precision that is not negative and a non-empty list of
    measurements. *)
Theorem invariante_de_las_estimaciones
    (minimize : (R * R → resultado R) → flotante * flotante → cotas
                → OptimizeResult) :
  contrato_minimize minimize ->
  (forall celdas ahora u,
     celdas <> [] ->
     _triangulacion_rssi minimize celdas ahora = Some u ->
     invariante_estimacion u) /\
  (forall celdas ahora u,
     celdas <> [] ->
     _triangulacion_toa minimize celdas ahora = Some u ->
     invariante_estimacion u) /\
  (forall celdas ahora,
     celdas <> [] ->
     pesos_en_int64 (map (fun p => signal_strength p.1) celdas) ->
     pesos_sin_signo_mixto (map (fun p => signal_strength p.1) celdas) ->
     exists u, _metodo_centroide celdas ahora = Devuelve u /\
               invariante_estimacion u) /\
  (forall self celdas ahora u,
     _estimar_ubicacion_2_celdas self celdas ahora = Devuelve (Some u) ->
     invariante_estimacion u) /\
  (forall resultados ahora,
     resultados <> [] ->
     Forall invariante_estimacion resultados ->
     exists u, _combinar_resultados resultados ahora = Devuelve u /\
               invariante_estimacion u) /\
  (forall self mediciones ahora u,
     pesos_en_int64
       (map (fun p => signal_strength p.1)
            (celdas_con_ubicacion self mediciones)) ->
     pesos_sin_signo_mixto
       (map (fun p => signal_strength p.1)
            (celdas_con_ubicacion self mediciones)) ->
     triangular_ubicacion minimize self mediciones ahora = Devuelve (Some u) ->
     invariante_estimacion u).
Proof.
  intros Hmin.
  split; [intros; eapply _triangulacion_rssi_invariante; eauto|].
  split; [intros; eapply _triangulacion_toa_invariante; eauto|].
  split; [intros; now apply _metodo_centroide_invariante|].
  split; [intros; eapply _estimar_ubicacion_2_celdas_invariante; eauto|].
  split; [intros; now apply _combinar_resultados_invariante|].
  intros; eapply triangular_ubicacion_invariante; eauto.
Qed.

(** The optimiser that does not iterate, on two towers. *)
Lemma invariante_de_las_estimaciones_witness :
  let celdas := [par_de_prueba (-60) 40 (-3); par_de_prueba (-90) 41 (-4)] in
  contrato_minimize minimize_sin_iterar /\
  (exists u, _triangulacion_rssi minimize_sin_iterar celdas 0%Z = Some u /\
             invariante_estimacion u) /\
  (exists u, _metodo_centroide celdas 0%Z = Devuelve u /\
             invariante_estimacion u).
Proof.
  intros celdas.
  pose proof (invariante_de_las_estimaciones minimize_sin_iterar
                minimize_sin_iterar_cumple)
    as (Hrssi & _ & Hcen & _).
  split; [exact minimize_sin_iterar_cumple|]. split.
  - destruct (_triangulacion_rssi minimize_sin_iterar celdas 0%Z) as [u|] eqn:E.
    + exists u. split; [reflexivity|].
      apply (Hrssi celdas 0%Z u); [discriminate|exact E].
    + exfalso. revert E. unfold _triangulacion_rssi, minimize_sin_iterar.
      cbn [np_mean map celdas].
      match goal with
      | |- context [funcion_error_rssi ?c ?p] =>
          destruct (funcion_error_rssi_total c p) as [v ->]
      end.
      discriminate.
  - apply Hcen; [discriminate| |right; cbn; lia].
    apply pesos_en_int64_de_prueba; unfold en_int64; cbn; lia.
Defined.

(** C9, counterexample.  For the signal strengths 3 and -1 the sum is
    positive and the weights are 3/2 and -1/2; the weighted variance is
    -3/4, and the centroid returns an estimate whose precision is NaN. *)
Lemma centroide_precision_nan :
  let celdas := [par_de_prueba 3 0 0; par_de_prueba (-1) 1 0] in
  exists u,
    _metodo_centroide celdas 0%Z = Devuelve u /\
    precision u = None /\
    ~ invariante_estimacion u.
Proof.
  intros celdas.
  assert (Hw : pesos_centroide [3; -1]%Z = [3 / 2; -1 / 2]).
  { unfold pesos_centroide. change (suma_Z [3; -1]%Z) with 2%Z. reflexivity. }
  assert (Hprec : exists u, _metodo_centroide celdas 0%Z = Devuelve u /\
                            precision u = None).
  { eexists. split; [apply _metodo_centroide_devuelve; discriminate|].
    cbn [precision].
    change (map (fun p => signal_strength p.1) celdas) with [3; -1]%Z.
    rewrite Hw.
    change (map (fun p => lat p.2) celdas) with [0; 1].
    change (map (fun p => lon p.2) celdas) with [0; 0].
    match goal with |- np_sqrt (Some ?x) = None => set (var := x) end.
    assert (Hvar : var = -3 / 4).
    { unfold var, promedio, desviaciones2. cbn [map zip_with].
      rewrite !suma_cons. change (suma []) with 0. field. }
    unfold np_sqrt. destruct (Rlt_dec var 0); [reflexivity|lra]. }
  destruct Hprec as (u & Hu & Hp). exists u.
  split; [exact Hu|]. split; [exact Hp|].
  intros [(p & Hp' & _) _]. rewrite Hp in Hp'. discriminate.
Qed.

End InvarianteEstimaciones.

(** ** The haversine distance as a metric *)

Section Metrica.
#[local] Open Scope R_scope.

Lemma haversine_a_simetrica (lat1 lon1 lat2 lon2 : R) :
  haversine_a lat1 lon1 lat2 lon2 = haversine_a lat2 lon2 lat1 lon1.
Proof.
  unfold haversine_a, math_radians.
  replace ((lat1 - lat2) * (PI / 180) / 2)
    with (- ((lat2 - lat1) * (PI / 180) / 2)) by lra.
  replace ((lon1 - lon2) * (PI / 180) / 2)
    with (- ((lon2 - lon1) * (PI / 180) / 2)) by lra.
  rewrite !sin_neg. ring.
Qed.

Lemma haversine_a_mismo_punto (lat_ lon_ : R) :
  haversine_a lat_ lon_ lat_ lon_ = 0.
Proof.
  unfold haversine_a, math_radians.
  replace ((lat_ - lat_) * (PI / 180) / 2) with 0 by lra.
  replace ((lon_ - lon_) * (PI / 180) / 2) with 0 by lra.
  rewrite sin_0. ring.
Qed.

Lemma math_atan2_cota (y x : R) :
  0 <= y -> 0 <= x -> 0 <= math_atan2 y x <= PI / 2.
Proof.
  intros Hy Hx. split; [now apply math_atan2_no_negativo|].
  unfold math_atan2. pose proof PI2_RGT_0 as Hpi.
  destruct (Rlt_dec 0 x).
  - pose proof (atan_bound (y / x)). lra.
  - destruct (Rlt_dec x 0); [lra|].
    destruct (Rlt_dec 0 y); [lra|].
    destruct (Rlt_dec y 0); lra.
Qed.

(** X1.  The distance of [_calcular_distancia] from a point to itself is
    0, for every latitude and longitude. *)
Theorem distancia_a_si_mismo (lat_ lon_ : R) :
  _calcular_distancia lat_ lon_ lat_ lon_ = Devuelve 0.
Proof.
  rewrite _calcular_distancia_devuelve, haversine_a_mismo_punto.
  rewrite Rminus_0_r, sqrt_0, sqrt_1. f_equal.
  unfold math_atan2. destruct (Rlt_dec 0 1); [|lra].
  unfold Rdiv. rewrite Rmult_0_l, atan_0. ring.
Qed.

(** X2.  [_calcular_distancia] is symmetric: the distance from the first
    point to the second is the distance from the second to the first. *)
Theorem distancia_simetrica (lat1 lon1 lat2 lon2 : R) :
  _calcular_distancia lat1 lon1 lat2 lon2 =
  _calcular_distancia lat2 lon2 lat1 lon1.
Proof.
  rewrite !_calcular_distancia_devuelve.
  now rewrite (haversine_a_simetrica lat1 lon1 lat2 lon2).
Qed.

(** X3.  When [_calcular_distancia] returns, the distance is at least 0
    and at most half the circumference of the sphere of radius 6371 km,
    that is 6371 * pi. *)
Theorem distancia_acotada (lat1 lon1 lat2 lon2 d : R) :
  _calcular_distancia lat1 lon1 lat2 lon2 = Devuelve d ->
  0 <= d <= 6371 * PI.
Proof.
  rewrite _calcular_distancia_devuelve. intros [= <-].
  pose proof (math_atan2_cota
                (sqrt (haversine_a lat1 lon1 lat2 lon2))
                (sqrt (1 - haversine_a lat1 lon1 lat2 lon2))
                (sqrt_pos _) (sqrt_pos _)).
  lra.
Qed.

(** One degree of longitude on the equator. *)
Lemma distancia_acotada_witness :
  exists d, _calcular_distancia 0 0 0 1 = Devuelve d /\ 0 <= d <= 6371 * PI.
Proof.
  assert (H : _calcular_distancia 0 0 0 1
              = Devuelve (6371 * math_radians (1 - 0))).
  { apply distancia_sobre_ecuador. unfold math_radians.
    pose proof PI_RGT_0. lra. }
  eexists. split; [exact H|]. exact (distancia_acotada 0 0 0 1 _ H).
Defined.

Lemma distancia_de_seno_medio (lat1 lon1 lat2 lon2 x : R) :
  haversine_a lat1 lon1 lat2 lon2 = sin (x / 2) * sin (x / 2) ->
  Rabs x < PI ->
  _calcular_distancia lat1 lon1 lat2 lon2 = Devuelve (6371 * Rabs x).
Proof.
  intros Ha Hx. rewrite _calcular_distancia_devuelve, Ha.
  set (h := Rabs x / 2).
  assert (Hsq : sin (x / 2) * sin (x / 2) = sin h * sin h).
  { unfold h. destruct (Rcase_abs x) as [Hneg|Hpos].
    - rewrite (Rabs_left x Hneg).
      replace (- x / 2) with (- (x / 2)) by lra. rewrite sin_neg. ring.
    - rewrite (Rabs_right x Hpos). reflexivity. }
  rewrite Hsq.
  assert (Hh : 0 <= h < PI / 2) by (unfold h; pose proof (Rabs_pos x); lra).
  assert (Hs : 0 <= sin h) by (apply sin_ge_0; lra).
  assert (Hc : 0 < cos h) by (apply cos_gt_0; lra).
  pose proof (sin2_cos2 h) as Hsc. unfold Rsqr in Hsc.
  replace (1 - sin h * sin h) with (cos h * cos h) by lra.
  rewrite !sqrt_square by lra.
  rewrite math_atan2_sin_cos by exact Hh.
  f_equal. unfold h. lra.
Qed.

Lemma haversine_a_meridiano (lat1 lat2 lon_ : R) :
  haversine_a lat1 lon_ lat2 lon_ =
  sin (math_radians (lat2 - lat1) / 2) * sin (math_radians (lat2 - lat1) / 2).
Proof.
  unfold haversine_a, math_radians.
  replace ((lon_ - lon_) * (PI / 180) / 2) with 0 by lra.
  rewrite sin_0. ring.
Qed.

(** X4.  Along the equator and along a meridian the distance is the arc
    length: 6371 times the absolute difference of the two longitudes (of
    the two latitudes) in radians, as long as that difference is below
    pi. *)
Theorem distancia_en_ecuador_y_meridiano :
  (forall lon1 lon2,
     Rabs (math_radians (lon2 - lon1)) < PI ->
     _calcular_distancia 0 lon1 0 lon2 =
     Devuelve (6371 * Rabs (math_radians (lon2 - lon1)))) /\
  (forall lat1 lat2 lon_,
     Rabs (math_radians (lat2 - lat1)) < PI ->
     _calcular_distancia lat1 lon_ lat2 lon_ =
     Devuelve (6371 * Rabs (math_radians (lat2 - lat1)))).
Proof.
  split; intros.
  - apply distancia_de_seno_medio; [apply haversine_a_ecuador|assumption].
  - apply distancia_de_seno_medio; [apply haversine_a_meridiano|assumption].
Qed.

(** One degree of longitude on the equator. *)
Lemma distancia_en_ecuador_y_meridiano_witness :
  Rabs (math_radians (1 - 0)) < PI /\
  _calcular_distancia 0 0 0 1 = Devuelve (6371 * Rabs (math_radians (1 - 0))).
Proof.
  assert (H : Rabs (math_radians (1 - 0)) < PI).
  { unfold math_radians. pose proof PI_RGT_0.
    rewrite Rabs_right by lra. lra. }
  split; [exact H|].
  exact (proj1 distancia_en_ecuador_y_meridiano 0 1 H).
Defined.

End Metrica.

(** ** The path-loss model and the two objective functions *)

Section Objetivos.
#[local] Open Scope R_scope.

Lemma _calcular_distancia_km (lat1 lon1 lat2 lon2 : R) :
  _calcular_distancia lat1 lon1 lat2 lon2 =
  Devuelve (distancia_km lat1 lon1 lat2 lon2).
Proof. apply _calcular_distancia_devuelve. Qed.

Lemma distancia_km_cota (lat1 lon1 lat2 lon2 : R) :
  0 <= distancia_km lat1 lon1 lat2 lon2 <= 6371 * PI.
Proof.
  unfold distancia_km.
  pose proof (math_atan2_cota
                (sqrt (haversine_a lat1 lon1 lat2 lon2))
                (sqrt (1 - haversine_a lat1 lon1 lat2 lon2))
                (sqrt_pos _) (sqrt_pos _)).
  lra.
Qed.







Lemma sumar_errores_suma {A : Type} (error : A -> resultado R) (f : A -> R)
    (l : list A) :
  Forall (fun c => error c = Devuelve (f c)) l ->
  forall acc, sumar_errores error l acc = Devuelve (acc + suma (map f l)).
Proof.
  induction 1 as [|c l Hc _ IH]; intros acc.
  - cbn. f_equal. lra.
  - cbn [sumar_errores map]. rewrite Hc. cbn [mbind resultado_bind].
    rewrite IH, suma_cons. f_equal. lra.
Qed.




Lemma _rssi_a_tiempo_negativo (rssi : Z) :
  (rssi < 0)%Z -> _rssi_a_tiempo rssi = - IZR rssi / 100.
Proof.
  intros H. unfold _rssi_a_tiempo. apply Rmax_left.
  assert (IZR rssi <= -1) by (apply IZR_le; lia). lra.
Qed.

Lemma map_ext_Forall {A B : Type} (f g : A -> B) (l : list A) :
  Forall (fun x => f x = g x) l -> map f l = map g l.
Proof.
  induction 1 as [|x l Hx _ IH]; [reflexivity|]. cbn. now rewrite Hx, IH.
Qed.

(** The objective function of [_triangulacion_toa] over the real numbers,
    for weak signals. *)
Lemma funcion_error_toa_forma (celdas : list (CeldaGSM * Ubicacion))
    (posicion : R * R) :
  Forall (fun p => signal_strength p.1 <= -9)%Z celdas ->
  funcion_error_toa (tiempos_toa celdas) posicion =
  Devuelve
    (suma (map (fun p => - IZR (signal_strength p.1) / 100
                         - distancia_km posicion.1 posicion.2
                             (lat p.2) (lon p.2) / 300000)
               celdas)) /\
  Forall (fun p => 0 < - IZR (signal_strength p.1) / 100
                       - distancia_km posicion.1 posicion.2
                           (lat p.2) (lon p.2) / 300000) celdas.
Proof.
  intros Hs. destruct posicion as [la lo]. cbn [fst snd].
  assert (Hpos : Forall
            (fun p => _rssi_a_tiempo (signal_strength p.1)
                      = - IZR (signal_strength p.1) / 100 /\
                      0 < - IZR (signal_strength p.1) / 100
                          - distancia_km la lo (lat p.2) (lon p.2) / 300000)
            celdas).
  { eapply Forall_impl; [exact Hs|]. cbn. intros [c u] Hc. cbn in *.
    split; [apply _rssi_a_tiempo_negativo; lia|].
    apply IZR_le in Hc.
    pose proof (distancia_km_cota la lo (lat u) (lon u)). pose proof PI_4. lra. }
  split; [|eapply Forall_impl; [exact Hpos|]; cbn; tauto].
  unfold funcion_error_toa, tiempos_toa.
  rewrite (sumar_errores_suma _
             (fun t => t.2 - distancia_km la lo t.1.1 t.1.2 / 300000)).
  - rewrite map_map, Rplus_0_l. f_equal. apply (f_equal suma).
    apply map_ext_Forall.
    eapply Forall_impl; [exact Hpos|]. cbn. intros [c u] [Ht _]. cbn in *.
    now rewrite Ht.
  - apply Forall_map. eapply Forall_impl; [exact Hpos|].
    cbn. intros [c u] [Ht Hd]. cbn in *.
    rewrite _calcular_distancia_km. cbn. f_equal.
    rewrite Ht. rewrite Rabs_left1 by lra. lra.
Qed.

(** X7.  When every signal strength is at most -9 (and fits in 64 bits),
    at every position where the objective function of
    [_triangulacion_toa] returns, its value is the sum over the towers of
    [-rssi / 100 - d / 300000], and each of these terms is positive: the
    estimated time exceeds the travel time of any distance on the sphere,
    so the absolute value never changes the sign of a term. *)
Theorem funcion_error_toa_senal_debil (celdas : list (CeldaGSM * Ubicacion))
    (posicion : R * R) (v : R) :
  Forall (fun p => - 2 ^ 63 <= signal_strength p.1 <= -9)%Z celdas ->
  funcion_error_toa (tiempos_toa celdas) posicion = Devuelve v ->
  v = suma (map (fun p => - IZR (signal_strength p.1) / 100
                          - distancia_km posicion.1 posicion.2
                              (lat p.2) (lon p.2) / 300000)
                celdas) /\
  Forall (fun p => 0 < - IZR (signal_strength p.1) / 100
                       - distancia_km posicion.1 posicion.2
                           (lat p.2) (lon p.2) / 300000) celdas.
Proof.
  intros Hs Hv.
  assert (Hs' : Forall (fun p => signal_strength p.1 <= -9)%Z celdas)
    by (eapply Forall_impl; [exact Hs|]; cbn; intros; lia).
  destruct (funcion_error_toa_forma celdas posicion Hs') as [Hf Hpos].
  rewrite Hf in Hv. injection Hv as <-. split; [reflexivity|exact Hpos].
Qed.

(** Two towers with the strengths -60 and -90. *)
Lemma funcion_error_toa_senal_debil_witness :
  let celdas := [par_de_prueba (-60) 40 (-3); par_de_prueba (-90) 41 (-4)] in
  Forall (fun p => - 2 ^ 63 <= signal_strength p.1 <= -9)%Z celdas /\
  exists v,
    funcion_error_toa (tiempos_toa celdas) (40, -3) = Devuelve v /\
    Forall (fun p => 0 < - IZR (signal_strength p.1) / 100
                         - distancia_km 40 (-3) (lat p.2) (lon p.2) / 300000)
           celdas.
Proof.
  intros celdas.
  assert (H : Forall (fun p => - 2 ^ 63 <= signal_strength p.1 <= -9)%Z celdas).
  { constructor; [cbn; lia|]. constructor; [cbn; lia|constructor]. }
  split; [exact H|].
  assert (H' : Forall (fun p => signal_strength p.1 <= -9)%Z celdas)
    by (eapply Forall_impl; [exact H|]; cbn; intros; lia).
  destruct (funcion_error_toa_forma celdas (40, -3) H') as [Hf _].
  eexists. split; [exact Hf|].
  exact (proj2 (funcion_error_toa_senal_debil celdas (40, -3) _ H Hf)).
Defined.

End Objetivos.

(** ** The two-cell fallback and the dispatch of [triangular_ubicacion] *)

Section DosCeldasGeneral.
#[local] Open Scope R_scope.

(** The weights of [_estimar_ubicacion_2_celdas]. *)
Lemma _estimar_ubicacion_2_celdas_resueltas (self : TrianguladorGSM)
    (celdas : list CeldaGSM) (c1 c2 : CeldaGSM) (u1 u2 : Ubicacion)
    (resto : list (CeldaGSM * Ubicacion)) (ahora : Z) :
  (2 <= length celdas)%nat ->
  celdas_con_ubicacion self celdas = (c1, u1) :: (c2, u2) :: resto ->
  let total := (signal_strength c1 + signal_strength c2)%Z in
  let peso1 := if (0 <? total)%Z then IZR (signal_strength c1) / IZR total
               else 1 / 2 in
  let peso2 := if (0 <? total)%Z then IZR (signal_strength c2) / IZR total
               else 1 / 2 in
  _estimar_ubicacion_2_celdas self celdas ahora =
  Devuelve (Some {| latitude := Some (lat u1 * peso1 + lat u2 * peso2);
                    longitude := Some (lon u1 * peso1 + lon u2 * peso2);
                    precision :=
                      Some (distancia_km (lat u1) (lon u1) (lat u2) (lon u2)
                            * (1 / 2));
                    metodo := "2_CELDAS";
                    celdas_utilizadas := celdas;
                    timestamp := ahora |}).
Proof.
  intros Hlen Hcu total peso1 peso2. unfold _estimar_ubicacion_2_celdas.
  rewrite (proj2 (Nat.ltb_ge _ _) Hlen), Hcu, _calcular_distancia_km.
  unfold peso1, peso2, total.
  destruct (0 <? signal_strength c1 + signal_strength c2)%Z; reflexivity.
Qed.

Lemma _estimar_ubicacion_2_celdas_ausente (self : TrianguladorGSM)
    (celdas : list CeldaGSM) (ahora : Z) :
  (length celdas < 2)%nat \/
  (length (celdas_con_ubicacion self celdas) < 2)%nat ->
  _estimar_ubicacion_2_celdas self celdas ahora = Devuelve None.
Proof.
  intros H. unfold _estimar_ubicacion_2_celdas.
  destruct (length celdas <? 2)%nat eqn:E; [reflexivity|].
  apply Nat.ltb_ge in E. destruct H as [H|H]; [lia|].
  destruct (celdas_con_ubicacion self celdas) as [|[c1 u1] [|[c2 u2] l]];
    try reflexivity.
  cbn in H. lia.
Qed.

(** X8.  [_estimar_ubicacion_2_celdas] returns no estimate, without
    raising, when the list has fewer than 2 cells or fewer than 2 of them
    are in the directory.  Whenever it returns, it returns no estimate
    only in these cases; otherwise the estimate is made from the first two
    resolved cells only: its precision is half the distance between their
    towers, its method is "2_CELDAS", its time is the clock reading, and
    its cells are the whole input list, resolved or not. *)
Theorem dos_celdas_caracterizacion (self : TrianguladorGSM)
    (celdas : list CeldaGSM) (ahora : Z) :
  ((length celdas < 2)%nat \/
   (length (celdas_con_ubicacion self celdas) < 2)%nat ->
   _estimar_ubicacion_2_celdas self celdas ahora = Devuelve None) /\
  (forall r,
     _estimar_ubicacion_2_celdas self celdas ahora = Devuelve r ->
     match r with
     | None =>
         (length celdas < 2)%nat \/
         (length (celdas_con_ubicacion self celdas) < 2)%nat
     | Some u =>
         (2 <= length celdas)%nat /\
         exists c1 u1 c2 u2 resto d,
           celdas_con_ubicacion self celdas = (c1, u1) :: (c2, u2) :: resto /\
           _calcular_distancia (lat u1) (lon u1) (lat u2) (lon u2)
             = Devuelve d /\
           precision u = Some (d / 2) /\
           metodo u = "2_CELDAS" /\
           celdas_utilizadas u = celdas /\
           timestamp u = ahora
     end).
Proof.
  split; [apply _estimar_ubicacion_2_celdas_ausente|].
  intros r. unfold _estimar_ubicacion_2_celdas.
  destruct (length celdas <? 2)%nat eqn:Hlen.
  { apply Nat.ltb_lt in Hlen. intros [= <-]. now left. }
  apply Nat.ltb_ge in Hlen.
  destruct (celdas_con_ubicacion self celdas)
    as [|[c1 u1] [|[c2 u2] resto]].
  - intros [= <-]. right. cbn. lia.
  - intros [= <-]. right. cbn. lia.
  - destruct (_calcular_distancia (lat u1) (lon u1) (lat u2) (lon u2))
      as [d|e] eqn:Hd.
    + destruct (0 <? signal_strength c1 + signal_strength c2)%Z;
        cbn; intros [= <-]; (split; [exact Hlen|]);
        exists c1, u1, c2, u2, resto, d;
        cbn [precision metodo celdas_utilizadas timestamp];
        (split; [reflexivity|]); (split; [exact Hd|]);
        (split; [f_equal; lra|]); auto.
    + destruct (0 <? signal_strength c1 + signal_strength c2)%Z;
        cbn; discriminate.
Qed.

(** Two towers 10 km apart on the equator. *)
Lemma dos_celdas_caracterizacion_witness :
  let c1 := celda_de_prueba "214" 30 0 in
  let c2 := celda_de_prueba "215" 10 0 in
  let self := {| estaciones_base := directorio_10km;
                 historial_mediciones := ∅ |} in
  exists u,
    _estimar_ubicacion_2_celdas self [c1; c2] 0%Z = Devuelve (Some u) /\
    metodo u = "2_CELDAS" /\ celdas_utilizadas u = [c1; c2].
Proof.
  intros c1 c2 self.
  destruct (dos_celdas_resueltas self c1 c2
              {| lat := 0; lon := 0 |} {| lat := 0; lon := lon_10km |} 0%Z
              (ubicacion_10km_214 ∅ 30 0) (ubicacion_10km_215 ∅ 10 0))
    as (u & Hu & _).
  exists u. split; [exact Hu|].
  destruct (proj2 (dos_celdas_caracterizacion self [c1; c2] 0%Z) _ Hu)
    as (_ & _ & _ & _ & _ & _ & _ & _ & _ & _ & Hm & Hc & _).
  split; [exact Hm|exact Hc].
Defined.

Lemma celdas_con_ubicacion_dos (self : TrianguladorGSM) (c1 c2 : CeldaGSM)
    (u1 u2 : Ubicacion) :
  _obtener_ubicacion_celda self c1 = Some u1 ->
  _obtener_ubicacion_celda self c2 = Some u2 ->
  celdas_con_ubicacion self [c1; c2] = [(c1, u1); (c2, u2)].
Proof.
  intros H1 H2. unfold celdas_con_ubicacion. cbn [omap list_omap].
  rewrite H1, H2. reflexivity.
Qed.

(** X9.  For two resolved cells with positive signal strengths, the
    estimate that [_estimar_ubicacion_2_celdas] returns is, in latitude and
    in longitude, the combination [tower1 * peso1 + tower2 * peso2] of the
    two towers with the weights [s1 / (s1 + s2)] and [s2 / (s1 + s2)], and
    the stronger cell weighs at least one half: with [s2 <= s1],
    [0 <= peso2 <= 1/2 <= peso1 <= 1]. *)
Theorem dos_celdas_peso_de_la_fuerte (self : TrianguladorGSM)
    (c1 c2 : CeldaGSM) (u1 u2 : Ubicacion) (ahora : Z)
    (u : UbicacionEstimada) :
  _obtener_ubicacion_celda self c1 = Some u1 ->
  _obtener_ubicacion_celda self c2 = Some u2 ->
  (0 < signal_strength c2 <= signal_strength c1)%Z ->
  _estimar_ubicacion_2_celdas self [c1; c2] ahora = Devuelve (Some u) ->
  let total := IZR (signal_strength c1 + signal_strength c2) in
  let peso1 := IZR (signal_strength c1) / total in
  let peso2 := IZR (signal_strength c2) / total in
  latitude u = Some (lat u1 * peso1 + lat u2 * peso2) /\
  longitude u = Some (lon u1 * peso1 + lon u2 * peso2) /\
  0 <= peso2 <= 1 / 2 /\ 1 / 2 <= peso1 <= 1.
Proof.
  intros H1 H2 [Hs2 Hs12] Hu total peso1 peso2.
  pose proof (celdas_con_ubicacion_dos self c1 c2 u1 u2 H1 H2) as Hcu.
  rewrite (_estimar_ubicacion_2_celdas_resueltas self [c1; c2] c1 c2 u1 u2 []
             ahora) in Hu; [|cbn; lia|exact Hcu].
  assert (Ht : (0 < signal_strength c1 + signal_strength c2)%Z) by lia.
  rewrite (proj2 (Z.ltb_lt _ _) Ht) in Hu. injection Hu as <-.
  cbn [latitude longitude]. fold total peso1 peso2.
  split; [reflexivity|]. split; [reflexivity|].
  assert (Hs1R : 0 < IZR (signal_strength c2) <= IZR (signal_strength c1))
    by (split; [apply IZR_lt|apply IZR_le]; lia).
  assert (Htot : total = IZR (signal_strength c1) + IZR (signal_strength c2))
    by (unfold total; apply plus_IZR).
  assert (Hi : 0 < / total) by (apply Rinv_0_lt_compat; lra).
  assert (Hsum : peso1 + peso2 = 1).
  { unfold peso1, peso2, Rdiv. rewrite <- Rmult_plus_distr_r, <- Htot.
    apply Rinv_r. lra. }
  assert (Hp2 : 0 < peso2) by (unfold peso2; apply Rmult_lt_0_compat; lra).
  assert (Hp12 : peso2 <= peso1)
    by (unfold peso1, peso2; apply Rmult_le_compat_r; lra).
  lra.
Qed.

(** Two towers 10 km apart on the equator, with the strengths 30 and
    10. *)
Lemma dos_celdas_peso_de_la_fuerte_witness :
  let c1 := celda_de_prueba "214" 30 0 in
  let c2 := celda_de_prueba "215" 10 0 in
  let self := {| estaciones_base := directorio_10km;
                 historial_mediciones := ∅ |} in
  (0 < signal_strength c2 <= signal_strength c1)%Z /\
  exists u,
    _estimar_ubicacion_2_celdas self [c1; c2] 0%Z = Devuelve (Some u) /\
    longitude u =
      Some (0 * (IZR 30 / IZR (30 + 10)) + lon_10km * (IZR 10 / IZR (30 + 10))).
Proof.
  intros c1 c2 self.
  assert (Hs : (0 < signal_strength c2 <= signal_strength c1)%Z) by (cbn; lia).
  split; [exact Hs|].
  destruct (dos_celdas_resueltas self c1 c2
              {| lat := 0; lon := 0 |} {| lat := 0; lon := lon_10km |} 0%Z
              (ubicacion_10km_214 ∅ 30 0) (ubicacion_10km_215 ∅ 10 0))
    as (u & Hu & _).
  exists u. split; [exact Hu|].
  exact (proj1 (proj2 (dos_celdas_peso_de_la_fuerte self c1 c2
                         {| lat := 0; lon := 0 |}
                         {| lat := 0; lon := lon_10km |} 0%Z u
                         (ubicacion_10km_214 ∅ 30 0)
                         (ubicacion_10km_215 ∅ 10 0) Hs Hu))).
Defined.

Lemma _calcular_distancia_conmuta (lat1 lon1 lat2 lon2 : R) :
  _calcular_distancia lat1 lon1 lat2 lon2 =
  _calcular_distancia lat2 lon2 lat1 lon1.
Proof.
  unfold _calcular_distancia.
  now rewrite (haversine_a_simetrica lat1 lon1 lat2 lon2).
Qed.

(** X10.  The two-cell fallback does not depend on the order of the two
    cells: with the cells swapped, [_estimar_ubicacion_2_celdas] has the
    same outcome, that is the same exception, or no estimate in both
    orders, or estimates with the same latitude, longitude and
    precision. *)
Theorem dos_celdas_orden_indiferente (self : TrianguladorGSM)
    (c1 c2 : CeldaGSM) (ahora : Z) :
  fmap (M:=option) posicion_y_precision
    <$> _estimar_ubicacion_2_celdas self [c1; c2] ahora =
  fmap (M:=option) posicion_y_precision
    <$> _estimar_ubicacion_2_celdas self [c2; c1] ahora.
Proof.
  unfold _estimar_ubicacion_2_celdas, celdas_con_ubicacion.
  cbn [length Nat.ltb Nat.leb omap list_omap].
  destruct (_obtener_ubicacion_celda self c1) as [u1|];
    destruct (_obtener_ubicacion_celda self c2) as [u2|];
    cbn [fmap option_fmap option_map]; try reflexivity.
  rewrite (_calcular_distancia_conmuta (lat u2) (lon u2) (lat u1) (lon u1)).
  rewrite (Z.add_comm (signal_strength c2) (signal_strength c1)).
  destruct (_calcular_distancia (lat u1) (lon u1) (lat u2) (lon u2)) as [d|e];
    [|destruct (0 <? signal_strength c1 + signal_strength c2)%Z; reflexivity].
  destruct (0 <? signal_strength c1 + signal_strength c2)%Z; cbn;
    unfold posicion_y_precision; cbn [latitude longitude precision];
    rewrite (Rplus_comm (lat u2 * _)), (Rplus_comm (lon u2 * _));
    reflexivity.
Qed.

End DosCeldasGeneral.

Section Despacho.
#[local] Open Scope R_scope.

Variable minimize :
  (R * R → resultado R) → flotante * flotante → cotas → OptimizeResult.

Lemma celdas_repetidas (cs : list CeldaGSM) (rs : list UbicacionEstimada) :
  Forall (fun u => celdas_utilizadas u = cs) rs ->
  concat (map celdas_utilizadas rs) = concat (replicate (length rs) cs).
Proof.
  induction 1 as [|u rs Hu _ IH]; [reflexivity|].
  cbn. now rewrite Hu, IH.
Qed.

Lemma agregar_si_celdas (cs : list CeldaGSM) (r : option UbicacionEstimada)
    (rs : list UbicacionEstimada) :
  (forall u, r = Some u -> celdas_utilizadas u = cs) ->
  Forall (fun u => celdas_utilizadas u = cs) rs ->
  Forall (fun u => celdas_utilizadas u = cs) (agregar_si r rs) /\
  (length rs <= length (agregar_si r rs) <= S (length rs))%nat.
Proof.
  intros Hr Hrs. destruct r as [u|]; cbn.
  - split; [apply Forall_app; split; [exact Hrs|constructor; auto]|].
    rewrite length_app. cbn. lia.
  - split; [exact Hrs|lia].
Qed.

(** The branch of [triangular_ubicacion] for 3 or more measurements of which
    at least 2 have a known cell. *)
Lemma triangular_ubicacion_combinada (self : TrianguladorGSM)
    (mediciones : list CeldaGSM) (ahora : Z) :
  (3 <= length mediciones)%nat ->
  (2 <= length (celdas_con_ubicacion self mediciones))%nat ->
  exists u k,
    triangular_ubicacion minimize self mediciones ahora = Devuelve (Some u) /\
    metodo u = "COMBINADO" /\
    (1 <= k <= 3)%nat /\
    celdas_utilizadas u =
      concat (replicate k (map fst (celdas_con_ubicacion self mediciones))) /\
    timestamp u = ahora.
Proof.
  intros H3 H2. unfold triangular_ubicacion.
  rewrite (proj2 (Nat.ltb_ge _ _) H3).
  set (cu := celdas_con_ubicacion self mediciones) in *.
  rewrite (proj2 (Nat.ltb_ge _ _) H2).
  assert (Hcu : cu <> []) by (intros Hnil; rewrite Hnil in H2; cbn in H2; lia).
  rewrite (_metodo_centroide_devuelve cu ahora Hcu).
  cbn [mbind resultado_bind].
  match goal with
  | |- context [agregar_si (Some ?uc) (agregar_si ?t (agregar_si ?r []))] =>
      set (ucen := uc); set (rt := t); set (rr := r)
  end.
  destruct (agregar_si_celdas (map fst cu) rr []) as [Hr1 Hr2];
    [|constructor|].
  { unfold rr, _triangulacion_rssi. intros u.
    destruct (res_success _); [|discriminate]. now intros [= <-]. }
  destruct (agregar_si_celdas (map fst cu) rt (agregar_si rr [])) as [Ht1 Ht2];
    [|exact Hr1|].
  { unfold rt, _triangulacion_toa. intros u.
    destruct (res_success _); [|discriminate]. now intros [= <-]. }
  assert (Hall : Forall (fun u => celdas_utilizadas u = map fst cu)
                   (agregar_si (Some ucen) (agregar_si rt (agregar_si rr [])))).
  { cbn. apply Forall_app. split; [exact Ht1|]. now constructor. }
  assert (Hk : (1 <= length (agregar_si (Some ucen)
                               (agregar_si rt (agregar_si rr []))) <= 3)%nat).
  { cbn [agregar_si]. rewrite length_app. cbn [length] in *. lia. }
  destruct (agregar_si (Some ucen) (agregar_si rt (agregar_si rr [])))
    as [|r0 rs] eqn:El; [cbn in Hk; lia|].
  rewrite _combinar_resultados_devuelve by discriminate.
  eexists. exists (length (r0 :: rs)). split; [reflexivity|].
  cbn [metodo celdas_utilizadas timestamp].
  split; [reflexivity|]. split; [exact Hk|].
  split; [now apply celdas_repetidas|reflexivity].
Qed.

(** The dispatch of [triangular_ubicacion] over the real numbers. *)
Lemma triangular_ubicacion_forma (self : TrianguladorGSM)
    (mediciones : list CeldaGSM) (ahora : Z) :
  let resueltas := celdas_con_ubicacion self mediciones in
  exists r,
    triangular_ubicacion minimize self mediciones ahora = Devuelve r /\
    match r with
    | None => (length mediciones < 2)%nat \/ (length resueltas < 2)%nat
    | Some u =>
        (2 <= length resueltas)%nat /\
        timestamp u = ahora /\
        ((length mediciones = 2)%nat /\
         metodo u = "2_CELDAS" /\
         celdas_utilizadas u = mediciones
         \/
         (3 <= length mediciones)%nat /\
         metodo u = "COMBINADO" /\
         exists k, (1 <= k <= 3)%nat /\
                   celdas_utilizadas u =
                     concat (replicate k (map fst resueltas)))
    end.
Proof.
  intros resueltas.
  destruct (le_lt_dec 3 (length mediciones)) as [H3|H3].
  - destruct (le_lt_dec 2 (length resueltas)) as [H2|H2].
    + destruct (triangular_ubicacion_combinada self mediciones ahora H3 H2)
        as (u & k & Hu & Hm & Hk & Hc & Ht).
      exists (Some u). split; [exact Hu|].
      split; [exact H2|]. split; [exact Ht|]. right.
      split; [exact H3|]. split; [exact Hm|]. exists k. now split.
    + exists None. split; [|now right].
      unfold triangular_ubicacion. fold resueltas.
      rewrite (proj2 (Nat.ltb_ge _ _) H3), (proj2 (Nat.ltb_lt _ _) H2).
      reflexivity.
  - unfold triangular_ubicacion. rewrite (proj2 (Nat.ltb_lt _ _) H3).
    destruct (le_lt_dec 2 (length mediciones)) as [Hm2|Hm2].
    + destruct resueltas as [|[c1 u1] [|[c2 u2] resto]] eqn:Hcu.
      * exists None. split; [|right; cbn; lia].
        apply _estimar_ubicacion_2_celdas_ausente. right.
        fold resueltas. rewrite Hcu. cbn; lia.
      * exists None. split; [|right; cbn; lia].
        apply _estimar_ubicacion_2_celdas_ausente. right.
        fold resueltas. rewrite Hcu. cbn; lia.
      * eexists. split;
          [apply (_estimar_ubicacion_2_celdas_resueltas self mediciones
                    c1 c2 u1 u2 resto ahora Hm2 Hcu)|].
        cbn. split; [lia|]. split; [reflexivity|]. left.
        repeat split. lia.
    + exists None. split; [|now left].
      apply _estimar_ubicacion_2_celdas_ausente. now left.
Qed.

(** X11.  The dispatch of [triangular_ubicacion], for every optimiser,
    directory and list of measurements.  With fewer than 2 measurements,
    or fewer than 2 of them in the directory, it returns no estimate,
    without raising.  Whenever it returns, it returns no estimate only in
    these cases.  An estimate of exactly 2 measurements has method
    "2_CELDAS" and these measurements as cells; an estimate of 3 or more
    has method "COMBINADO", and its cells are the resolved measurements
    repeated once for each estimator that gave a result, between 1 and 3
    times. *)
Theorem triangular_ubicacion_caracterizacion (self : TrianguladorGSM)
    (mediciones : list CeldaGSM) (ahora : Z) :
  let resueltas := celdas_con_ubicacion self mediciones in
  ((length mediciones < 2)%nat \/ (length resueltas < 2)%nat ->
   triangular_ubicacion minimize self mediciones ahora = Devuelve None) /\
  (forall r,
     triangular_ubicacion minimize self mediciones ahora = Devuelve r ->
     match r with
     | None => (length mediciones < 2)%nat \/ (length resueltas < 2)%nat
     | Some u =>
         (2 <= length resueltas)%nat /\
         timestamp u = ahora /\
         ((length mediciones = 2)%nat /\
          metodo u = "2_CELDAS" /\
          celdas_utilizadas u = mediciones
          \/
          (3 <= length mediciones)%nat /\
          metodo u = "COMBINADO" /\
          exists k, (1 <= k <= 3)%nat /\
                    celdas_utilizadas u =
                      concat (replicate k (map fst resueltas)))
     end).
Proof.
  intros resueltas. split.
  - intros H. unfold triangular_ubicacion.
    destruct (length mediciones <? 3)%nat eqn:E.
    + apply _estimar_ubicacion_2_celdas_ausente. exact H.
    + apply Nat.ltb_ge in E. destruct H as [H|H]; [lia|].
      fold resueltas. now rewrite (proj2 (Nat.ltb_lt _ _) H).
  - intros r Hr.
    destruct (triangular_ubicacion_forma self mediciones ahora)
      as (r' & Hr' & Hforma).
    rewrite Hr' in Hr. injection Hr as <-. exact Hforma.
Qed.

End Despacho.

(** Two measurements on towers 10 km apart on the equator. *)
Lemma triangular_ubicacion_caracterizacion_witness :
  let c1 := celda_de_prueba "214" 30 0 in
  let c2 := celda_de_prueba "215" 10 0 in
  let self := {| estaciones_base := directorio_10km;
                 historial_mediciones := ∅ |} in
  exists u,
    triangular_ubicacion minimize_sin_iterar self [c1; c2] 0%Z
      = Devuelve (Some u) /\
    metodo u = "2_CELDAS" /\ celdas_utilizadas u = [c1; c2].
Proof.
  intros c1 c2 self.
  destruct (dos_celdas_resueltas self c1 c2
              {| lat := 0; lon := 0 |} {| lat := 0; lon := lon_10km |} 0%Z
              (ubicacion_10km_214 ∅ 30 0) (ubicacion_10km_215 ∅ 10 0))
    as (u & Hu & _).
  assert (Ht : triangular_ubicacion minimize_sin_iterar self [c1; c2] 0%Z
               = Devuelve (Some u)) by exact Hu.
  exists u. split; [exact Ht|].
  destruct (proj2 (triangular_ubicacion_caracterizacion
                     minimize_sin_iterar self [c1; c2] 0%Z) _ Ht)
    as (_ & _ & [(_ & Hm & Hc)|(H3 & _)]).
  - split; [exact Hm|exact Hc].
  - cbn in H3. lia.
Defined.

(** ** The combiner on a single estimate *)

Section CombinadorGeneral.
#[local] Open Scope R_scope.

(** The three averages of [_combinar_resultados] on finite estimates. *)
Lemma _combinar_resultados_finito (resultados : list UbicacionEstimada)
    (ahora : Z) :
  resultados <> [] ->
  Forall estimacion_finita resultados ->
  let pesos :=
    pesos_por_precision (map (fun u => valor (precision u)) resultados) in
  let media (f : UbicacionEstimada -> flotante) :=
    Some (suma (zip_with Rmult (map (fun u => valor (f u)) resultados) pesos)) in
  _combinar_resultados resultados ahora =
  Devuelve {| latitude := media latitude;
              longitude := media longitude;
              precision := media precision;
              metodo := "COMBINADO";
              celdas_utilizadas := concat (map celdas_utilizadas resultados);
              timestamp := ahora |}.
Proof.
  intros Hne Hfin pesos media.
  destruct (campos_finitos resultados Hfin) as (Hla & Hlo & Hp & Hp0).
  set (ps := map (fun u => valor (precision u)) resultados) in *.
  assert (Hps : ps <> [])
    by (unfold ps; destruct resultados; [contradiction|discriminate]).
  rewrite _combinar_resultados_devuelve by exact Hne.
  rewrite Hla, Hlo, Hp.
  rewrite !media_combinada_finita;
    try assumption; try (unfold ps; now rewrite !length_map).
  reflexivity.
Qed.

(** X13.  [_combinar_resultados] on a single finite estimate returns its
    latitude, longitude, precision and cells unchanged, with the method
    "COMBINADO" and the time of the call. *)
Theorem combinacion_de_una_estimacion (u : UbicacionEstimada) (ahora : Z) :
  estimacion_finita u ->
  _combinar_resultados [u] ahora =
  Devuelve {| latitude := latitude u;
              longitude := longitude u;
              precision := precision u;
              metodo := "COMBINADO";
              celdas_utilizadas := celdas_utilizadas u;
              timestamp := ahora |}.
Proof.
  intros Hfin.
  rewrite _combinar_resultados_finito by (discriminate || now constructor).
  destruct Hfin as (la & lo & p & Hla & Hlo & Hp & Hp0).
  cbn [map concat]. rewrite app_nil_r, Hla, Hlo, Hp.
  change (valor (Some la)) with la.
  change (valor (Some lo)) with lo. change (valor (Some p)) with p.
  pose proof (peso_inverso_positivo p Hp0) as Hw.
  assert (Hm : forall a : R,
            suma (zip_with Rmult [a] (pesos_por_precision [p])) = a).
  { intros a. unfold pesos_por_precision. cbn [map zip_with].
    rewrite !suma_cons. change (suma []) with 0. field. lra. }
  rewrite !Hm. reflexivity.
Qed.

(** One estimate with precision 0.5 km. *)
Lemma combinacion_de_una_estimacion_witness :
  let u := estimacion_de_prueba 40 (-3) (1 / 2) [celda_de_prueba "214" (-70) 0] in
  estimacion_finita u /\
  _combinar_resultados [u] 7%Z =
  Devuelve {| latitude := Some 40; longitude := Some (-3);
              precision := Some (1 / 2); metodo := "COMBINADO";
              celdas_utilizadas := [celda_de_prueba "214" (-70) 0];
              timestamp := 7 |}.
Proof.
  intros u.
  assert (H : estimacion_finita u).
  { exists 40, (-3), (1 / 2). repeat split; lra. }
  split; [exact H|]. exact (combinacion_de_una_estimacion u 7%Z H).
Defined.

End CombinadorGeneral.

(** ** The trajectory of a subject *)

Section Trayectorias.

Lemma pop_si_excede_n {A : Type} (n : nat) (h : list A) (c : A) :
  length h ≤ n →
  (if n <? length (h ++ [c]) then drop 1 (h ++ [c]) else h ++ [c])
  = ultimas n (h ++ [c]).
Proof.
  intros Hh. unfold ultimas. rewrite length_app. cbn [length].
  destruct (n <? length h + 1) eqn:E.
  - apply Nat.ltb_lt in E. now replace (length h + 1 - n) with 1 by lia.
  - apply Nat.ltb_ge in E. now replace (length h + 1 - n) with 0 by lia.
Qed.

Lemma trayectoria_actualizada (self : MapeadorGSM) (imsi : string)
    (u : UbicacionEstimada) :
  length (trayectorias self !!! imsi) ≤ 100 →
  trayectorias (actualizar_trayectoria self imsi u) !!! imsi =
  ultimas 100 ((trayectorias self !!! imsi) ++ [u]).
Proof.
  intros Hlen. unfold actualizar_trayectoria. cbn [trayectorias].
  rewrite lookup_total_insert_eq. now apply pop_si_excede_n.
Qed.

Lemma trayectoria_ajena (self : MapeadorGSM) (imsi otro : string)
    (u : UbicacionEstimada) :
  imsi ≠ otro →
  trayectorias (actualizar_trayectoria self imsi u) !!! otro =
  trayectorias self !!! otro.
Proof.
  intros Hne. unfold actualizar_trayectoria. cbn [trayectorias].
  now rewrite lookup_total_insert_ne.
Qed.

Lemma trayectorias_tras_estimaciones (us : list (string * UbicacionEstimada)) :
  ∀ (self : MapeadorGSM) (imsi : string),
    length (trayectorias self !!! imsi) ≤ 100 →
    trayectorias (actualizar_trayectorias self us) !!! imsi =
    ultimas 100 ((trayectorias self !!! imsi)
                   ++ map snd (filter (λ p, p.1 = imsi) us)).
Proof.
  unfold actualizar_trayectorias.
  induction us as [|[i u] us IH]; intros self imsi Hlen.
  - cbn. rewrite app_nil_r. unfold ultimas.
    now replace (length (trayectorias self !!! imsi) - 100) with 0 by lia.
  - cbn [foldl fst snd]. destruct (decide (i = imsi)) as [->|Hne].
    + rewrite filter_cons_True by reflexivity. cbn [map snd].
      rewrite IH; rewrite trayectoria_actualizada by exact Hlen.
      * rewrite ultimas_app, <- app_assoc. reflexivity.
      * apply length_ultimas.
    + rewrite filter_cons_False by exact Hne.
      rewrite IH; rewrite trayectoria_ajena by exact Hne; auto.
Qed.

(** X16.  The trajectory of a subject is a FIFO buffer of capacity 100.
    After any sequence of calls of [actualizar_trayectoria], for any
    subjects, the trajectory of [imsi] holds the last 100 entries of what
    it held before followed by the estimates of that subject, in the order
    of the calls, and it has at most 100 entries. *)
Theorem trayectoria_fifo_100 (self : MapeadorGSM) (imsi : string)
    (us : list (string * UbicacionEstimada)) :
  length (trayectorias self !!! imsi) ≤ 100 →
  let t := trayectorias self !!! imsi in
  let t' := trayectorias (actualizar_trayectorias self us) !!! imsi in
  t' = ultimas 100 (t ++ map snd (filter (λ p, p.1 = imsi) us)) ∧
  length t' ≤ 100.
Proof.
  intros Hlen t t'.
  assert (Ht' : t' = ultimas 100 (t ++ map snd (filter (λ p, p.1 = imsi) us)))
    by (apply trayectorias_tras_estimaciones; exact Hlen).
  split; [exact Ht'|]. rewrite Ht'. apply length_ultimas.
Qed.

(** The 101 estimates of [estimaciones_101], added to an empty
    trajectory. *)
Lemma trayectoria_fifo_100_witness :
  let self := {| trayectorias := ∅ |} in
  let t' := trayectorias (actualizar_trayectorias self estimaciones_101)
              !!! "X" in
  length (trayectorias self !!! "X") ≤ 100 ∧
  t' = drop 1 (map snd estimaciones_101) ∧ length t' ≤ 100.
Proof.
  intros self t'.
  assert (H0 : trayectorias self !!! "X" = [])
    by (cbn; now rewrite lookup_total_empty).
  assert (Hle : length (trayectorias self !!! "X") ≤ 100)
    by (rewrite H0; cbn; lia).
  split; [exact Hle|].
  destruct (trayectoria_fifo_100 self "X" estimaciones_101 Hle) as [Ht Hl].
  split; [|exact Hl].
  fold t' in Ht. rewrite Ht, H0. reflexivity.
Defined.

End Trayectorias.

(** ** Runs of the engine: what one call keeps *)

Section Motor.

Variable minimize :
  (R * R → resultado R) → flotante * flotante → cotas → OptimizeResult.

Lemma elem_of_ultimas {A : Type} (n : nat) (l : list A) (x : A) :
  x ∈ ultimas n l → x ∈ l.
Proof.
  unfold ultimas. intros H. rewrite <- (take_drop (length l - n) l).
  apply elem_of_app. now right.
Qed.

Lemma historial_agregado (self : TrianguladorGSM) (c : CeldaGSM) (k : string) :
  length (historial_mediciones self !!! k) ≤ 50 →
  historial_mediciones (agregar_medicion_celda self c) !!! k =
  if decide (clave_celda c = k)
  then ultimas 50 ((historial_mediciones self !!! k) ++ [c])
  else historial_mediciones self !!! k.
Proof.
  intros Hlen. destruct (decide (clave_celda c = k)) as [<-|Hne].
  - rewrite historial_agregar_misma. cbn zeta. now apply pop_si_excede.
  - now apply historial_agregar_otra.
Qed.

Lemma trayectoria_tras_actualizar (self : MapeadorGSM) (imsi i : string)
    (u : UbicacionEstimada) :
  length (trayectorias self !!! i) ≤ 100 →
  trayectorias (actualizar_trayectoria self imsi u) !!! i =
  if decide (imsi = i)
  then ultimas 100 ((trayectorias self !!! i) ++ [u])
  else trayectorias self !!! i.
Proof.
  intros Hlen. destruct (decide (imsi = i)) as [->|Hne].
  - now apply trayectoria_actualizada.
  - now apply trayectoria_ajena.
Qed.

Lemma _estimar_ubicacion_2_celdas_metodo (self : TrianguladorGSM)
    (celdas : list CeldaGSM) (ahora : Z) (u : UbicacionEstimada) :
  _estimar_ubicacion_2_celdas self celdas ahora = Devuelve (Some u) →
  metodo u = "2_CELDAS".
Proof.
  intros Hu.
  destruct (le_lt_dec 2 (length celdas)) as [Hlen|Hlen].
  - destruct (celdas_con_ubicacion self celdas)
      as [|[c1 u1] [|[c2 u2] resto]] eqn:Hcu.
    + rewrite _estimar_ubicacion_2_celdas_ausente in Hu;
        [discriminate|right; rewrite Hcu; cbn; lia].
    + rewrite _estimar_ubicacion_2_celdas_ausente in Hu;
        [discriminate|right; rewrite Hcu; cbn; lia].
    + rewrite (_estimar_ubicacion_2_celdas_resueltas self celdas c1 c2 u1 u2
                 resto ahora Hlen Hcu) in Hu.
      now injection Hu as <-.
  - rewrite _estimar_ubicacion_2_celdas_ausente in Hu;
      [discriminate|now left].
Qed.

Lemma triangular_ubicacion_metodo (self : TrianguladorGSM)
    (mediciones : list CeldaGSM) (ahora : Z) (u : UbicacionEstimada) :
  triangular_ubicacion minimize self mediciones ahora = Devuelve (Some u) →
  metodo u = "2_CELDAS" ∨ metodo u = "COMBINADO".
Proof.
  intros Hu.
  destruct (le_lt_dec 3 (length mediciones)) as [H3|H3].
  - destruct (le_lt_dec 2 (length (celdas_con_ubicacion self mediciones)))
      as [H2|H2].
    + destruct (triangular_ubicacion_combinada minimize self mediciones ahora
                  H3 H2) as (v & k & Hv & Hm & _).
      rewrite Hv in Hu. injection Hu as <-. now right.
    + unfold triangular_ubicacion in Hu.
      rewrite (proj2 (Nat.ltb_ge _ _) H3), (proj2 (Nat.ltb_lt _ _) H2) in Hu.
      discriminate.
  - unfold triangular_ubicacion in Hu.
    rewrite (proj2 (Nat.ltb_lt _ _) H3) in Hu.
    left. eapply _estimar_ubicacion_2_celdas_metodo, Hu.
Qed.

(** One call keeps the bounds. *)
Lemma procesar_medicion_celda_acotado (self self' : AnalizadorGSMAvanzado)
    (imsi : string) (celda : CeldaGSM) (ahora : Z) :
  estado_acotado self →
  procesar_medicion_celda minimize self imsi celda ahora = Devuelve self' →
  estado_acotado self' ∧
  estaciones_base (triangulador self') = estaciones_base (triangulador self).
Proof.
  intros (Hh & Hk & Ht) Hp.
  destruct (procesar_medicion_celda_inv minimize self self' imsi celda ahora
              Hp) as (r & _ & ->).
  split; [|reflexivity]. unfold estado_acotado.
  cbn [triangulador mapeador]. repeat split.
  - intros k. rewrite historial_agregado by apply Hh.
    destruct (decide _); [apply length_ultimas|apply Hh].
  - intros k c. rewrite historial_agregado by apply Hh.
    destruct (decide _) as [<-|Hne]; [|apply Hk].
    intros Hc%elem_of_ultimas. apply elem_of_app in Hc as [Hc|Hc].
    + now apply Hk.
    + apply list_elem_of_singleton in Hc. now subst.
  - intros i. destruct r as [u|]; [|apply Ht].
    rewrite trayectoria_tras_actualizar by apply Ht.
    destruct (decide _); [apply length_ultimas|apply Ht].
Qed.

(** One call keeps the estimates coherent and adds at most one. *)
Lemma procesar_medicion_celda_coherente (self self' : AnalizadorGSMAvanzado)
    (imsi : string) (celda : CeldaGSM) (ahora : Z) :
  (∀ i, length (trayectorias (mapeador self) !!! i) ≤ 100) →
  estimaciones_coherentes self →
  procesar_medicion_celda minimize self imsi celda ahora = Devuelve self' →
  estimaciones_coherentes self' ∧
  (∀ i, length (trayectorias (mapeador self') !!! i) ≤ 100) ∧
  ubicaciones_estimadas self `prefix_of` ubicaciones_estimadas self' ∧
  length (ubicaciones_estimadas self') ≤ S (length (ubicaciones_estimadas self)).
Proof.
  intros Ht (Hm & Hsub) Hp.
  destruct (procesar_medicion_celda_inv minimize self self' imsi celda ahora
              Hp) as (r & Hr & ->).
  unfold estimaciones_coherentes. cbn [ubicaciones_estimadas mapeador].
  assert (Hmr : ∀ u, r = Some u → metodo u = "2_CELDAS" ∨ metodo u = "COMBINADO").
  { intros u ->. destruct (2 <=? _)%nat; [|discriminate].
    eapply triangular_ubicacion_metodo, Hr. }
  repeat split.
  - intros u Hu. apply elem_of_app in Hu as [Hu|Hu]; [now apply Hm|].
    destruct r as [v|]; cbn in Hu; [|now apply elem_of_nil in Hu].
    apply list_elem_of_singleton in Hu. subst. now apply Hmr.
  - intros i u. destruct r as [v|].
    + rewrite trayectoria_tras_actualizar by apply Ht.
      destruct (decide _) as [->|Hne].
      * intros Hu%elem_of_ultimas. apply elem_of_app in Hu as [Hu|Hu];
          apply elem_of_app; [left; eapply Hsub, Hu|right; exact Hu].
      * intros Hu. apply elem_of_app. left. eapply Hsub, Hu.
    + intros Hu. apply elem_of_app. left. eapply Hsub, Hu.
  - intros i. destruct r as [v|]; [|apply Ht].
    rewrite trayectoria_tras_actualizar by apply Ht.
    destruct (decide _); [apply length_ultimas|apply Ht].
  - now apply prefix_app_r.
  - rewrite length_app. destruct r; cbn; lia.
Qed.

End Motor.

(** ** Runs of the engine: bounds and stored estimates *)

Section MotorInvariantes.

Variable minimize :
  (R * R → resultado R) → flotante * flotante → cotas → OptimizeResult.

Lemma procesar_mediciones_cons (self : AnalizadorGSMAvanzado)
    (imsi : string) (celda : CeldaGSM) (ahora : Z)
    (resto : list (string * CeldaGSM * Z)) (self' : AnalizadorGSMAvanzado) :
  procesar_medicion_celda minimize self imsi celda ahora = Devuelve self' →
  procesar_mediciones minimize self ((imsi, celda, ahora) :: resto) =
  procesar_mediciones minimize self' resto.
Proof. intros H. cbn [procesar_mediciones]. now rewrite H. Qed.

Lemma procesar_medicion_celda_total (self : AnalizadorGSMAvanzado)
    (imsi : string) (celda : CeldaGSM) (ahora : Z) :
  ∃ self', procesar_medicion_celda minimize self imsi celda ahora
           = Devuelve self'.
Proof.
  destruct (procesar_medicion_celda_devuelve minimize self imsi celda ahora)
    as (r & _ & Hp).
  eexists. exact Hp.
Qed.

Lemma procesar_mediciones_inv (self self' : AnalizadorGSMAvanzado)
    (imsi : string) (celda : CeldaGSM) (ahora : Z)
    (resto : list (string * CeldaGSM * Z)) :
  procesar_mediciones minimize self ((imsi, celda, ahora) :: resto)
    = Devuelve self' →
  ∃ self1,
    procesar_medicion_celda minimize self imsi celda ahora = Devuelve self1 ∧
    procesar_mediciones minimize self1 resto = Devuelve self'.
Proof.
  cbn [procesar_mediciones].
  destruct (procesar_medicion_celda minimize self imsi celda ahora)
    as [self1|e]; [|discriminate].
  intros Hrun. exists self1. split; [reflexivity|exact Hrun].
Qed.

Lemma procesar_mediciones_total (llamadas : list (string * CeldaGSM * Z))
    (self : AnalizadorGSMAvanzado) :
  ∃ self', procesar_mediciones minimize self llamadas = Devuelve self'.
Proof.
  revert self. induction llamadas as [|[[imsi celda] ahora] resto IH];
    intros self.
  - exists self. reflexivity.
  - destruct (procesar_medicion_celda_total self imsi celda ahora)
      as [self1 H1].
    destruct (IH self1) as [self' Hrun]. exists self'.
    now rewrite (procesar_mediciones_cons self imsi celda ahora resto self1 H1).
Qed.

(** X17.  A run of the engine that returns keeps the bounds of its state:
    after any sequence of calls of [procesar_medicion_celda] that all
    return, every history has at most 50 entries, every entry of a history
    is filed under its own cell key, every trajectory has at most 100
    entries, and the directory of base stations is the one the run started
    with. *)
Theorem motor_estado_acotado (llamadas : list (string * CeldaGSM * Z))
    (self self' : AnalizadorGSMAvanzado) :
  estado_acotado self →
  procesar_mediciones minimize self llamadas = Devuelve self' →
  estado_acotado self' ∧
  estaciones_base (triangulador self') = estaciones_base (triangulador self).
Proof.
  revert self. induction llamadas as [|[[imsi celda] ahora] resto IH];
    intros self Hself Hrun.
  - cbn in Hrun. injection Hrun as <-. split; [exact Hself|reflexivity].
  - destruct (procesar_mediciones_inv self self' imsi celda ahora resto Hrun)
      as (self1 & H1 & Hresto).
    destruct (procesar_medicion_celda_acotado minimize self self1 imsi celda
                ahora Hself H1) as [Hac Hdir].
    destruct (IH self1 Hac Hresto) as [Hac' Hdir'].
    split; [exact Hac'|congruence].
Qed.

Lemma analizador_inicial_acotado (estaciones : gmap string Ubicacion) :
  estado_acotado (analizador_inicial estaciones).
Proof.
  unfold estado_acotado, analizador_inicial. cbn. repeat split.
  - intros k. rewrite ventana_vacia. cbn. lia.
  - intros k c. rewrite ventana_vacia. intros H. now apply elem_of_nil in H.
  - intros i. rewrite ventana_vacia. cbn. lia.
Qed.

(** X18.  Over any run of the engine that returns, every stored estimate
    has the method "2_CELDAS" or "COMBINADO" (never "RSSI", "TOA" or
    "CENTROIDE"), every entry of a trajectory is a stored estimate, the
    list of stored estimates only grows at its end, and it grows by at
    most one estimate per call. *)
Theorem motor_estimaciones_coherentes (llamadas : list (string * CeldaGSM * Z))
    (self self' : AnalizadorGSMAvanzado) :
  (∀ i, length (trayectorias (mapeador self) !!! i) ≤ 100) →
  estimaciones_coherentes self →
  procesar_mediciones minimize self llamadas = Devuelve self' →
  estimaciones_coherentes self' ∧
  ubicaciones_estimadas self `prefix_of` ubicaciones_estimadas self' ∧
  length (ubicaciones_estimadas self')
    ≤ length (ubicaciones_estimadas self) + length llamadas.
Proof.
  revert self. induction llamadas as [|[[imsi celda] ahora] resto IH];
    intros self Ht Hself Hrun.
  - cbn in Hrun. injection Hrun as <-.
    split; [exact Hself|]. split; [reflexivity|cbn; lia].
  - destruct (procesar_mediciones_inv self self' imsi celda ahora resto Hrun)
      as (self1 & H1 & Hresto).
    destruct (procesar_medicion_celda_coherente minimize self self1 imsi celda
                ahora Ht Hself H1) as (Hco & Ht1 & Hpre & Hlen).
    destruct (IH self1 Ht1 Hco Hresto) as (Hco' & Hpre' & Hlen').
    split; [exact Hco'|].
    split; [now transitivity (ubicaciones_estimadas self1)|].
    cbn [length]. lia.
Qed.

Lemma analizador_inicial_coherente (estaciones : gmap string Ubicacion) :
  (∀ i, length (trayectorias (mapeador (analizador_inicial estaciones)) !!! i)
        ≤ 100) ∧
  estimaciones_coherentes (analizador_inicial estaciones).
Proof.
  unfold estimaciones_coherentes, analizador_inicial. cbn. repeat split.
  - intros i. rewrite ventana_vacia. cbn. lia.
  - intros u H. now apply elem_of_nil in H.
  - intros i u. rewrite ventana_vacia. intros H. now apply elem_of_nil in H.
Qed.

End MotorInvariantes.

(** The three calls of [llamadas_de_prueba] from the initial state. *)
Lemma motor_estado_acotado_witness :
  estado_acotado (analizador_inicial directorio_de_prueba) ∧
  ∃ self',
    procesar_mediciones minimize_sin_iterar
      (analizador_inicial directorio_de_prueba) llamadas_de_prueba
      = Devuelve self' ∧
    estado_acotado self' ∧
    estaciones_base (triangulador self') = directorio_de_prueba.
Proof.
  split; [apply analizador_inicial_acotado|].
  destruct (procesar_mediciones_total minimize_sin_iterar llamadas_de_prueba
              (analizador_inicial directorio_de_prueba)) as [self' Hrun].
  exists self'. split; [exact Hrun|].
  exact (motor_estado_acotado minimize_sin_iterar llamadas_de_prueba
           (analizador_inicial directorio_de_prueba) self'
           (analizador_inicial_acotado directorio_de_prueba) Hrun).
Defined.

(** The three calls of [llamadas_de_prueba] from the initial state: at
    most three estimates. *)
Lemma motor_estimaciones_coherentes_witness :
  let self := analizador_inicial directorio_de_prueba in
  (∀ i, length (trayectorias (mapeador self) !!! i) ≤ 100) ∧
  estimaciones_coherentes self ∧
  ∃ self',
    procesar_mediciones minimize_sin_iterar self llamadas_de_prueba
      = Devuelve self' ∧
    estimaciones_coherentes self' ∧
    length (ubicaciones_estimadas self') ≤ 3.
Proof.
  intros self.
  destruct (analizador_inicial_coherente directorio_de_prueba) as [Ht Hco].
  split; [exact Ht|]. split; [exact Hco|].
  destruct (procesar_mediciones_total minimize_sin_iterar llamadas_de_prueba
              self) as [self' Hrun].
  destruct (motor_estimaciones_coherentes minimize_sin_iterar
              llamadas_de_prueba self self' Ht Hco Hrun)
    as (Hco' & _ & Hlen).
  exists self'. split; [exact Hrun|]. split; [exact Hco'|exact Hlen].
Defined.

(** ** One call: what it leaves alone; the purge *)

Section Marco.

Variable minimize :
  (R * R → resultado R) → flotante * flotante → cotas → OptimizeResult.

(** X19.  A call of [procesar_medicion_celda] for subject [imsi] and cell
    [celda] that returns leaves alone what belongs to others: the
    directory, the history of every other cell key and the trajectory of
    every other subject are unchanged, and the window of every other
    subject only loses the measurements that are 5 minutes old or
    older. *)
Theorem procesar_no_toca_a_los_demas (self self' : AnalizadorGSMAvanzado)
    (imsi : string) (celda : CeldaGSM) (ahora : Z) :
  procesar_medicion_celda minimize self imsi celda ahora = Devuelve self' →
  estaciones_base (triangulador self') = estaciones_base (triangulador self) ∧
  (∀ k, k ≠ clave_celda celda →
        historial_mediciones (triangulador self') !! k =
        historial_mediciones (triangulador self) !! k) ∧
  (∀ otro, otro ≠ imsi →
           trayectorias (mapeador self') !! otro =
           trayectorias (mapeador self) !! otro) ∧
  (∀ otro, otro ≠ imsi →
           mediciones_actuales self' !! otro =
           filter (es_reciente ahora) <$> mediciones_actuales self !! otro).
Proof.
  intros Hp.
  destruct (procesar_medicion_celda_inv minimize self self' imsi celda ahora
              Hp) as (r & _ & ->).
  cbn [triangulador mapeador mediciones_actuales]. repeat split.
  - intros k Hk. unfold agregar_medicion_celda. cbn [historial_mediciones].
    now rewrite lookup_insert_ne.
  - intros otro Ho. destruct r as [u|]; [|reflexivity].
    unfold actualizar_trayectoria. cbn [trayectorias].
    now rewrite lookup_insert_ne.
  - intros otro Ho. rewrite lookup_fmap. now rewrite lookup_insert_ne.
Qed.

(** X20.  The purge empties windows but never removes their keys: after a
    call for subject [imsi] that returns, the subjects with a window are
    those from before and [imsi], and the window of [imsi] is its former
    window with the new measurement at the end, less the measurements that
    are 5 minutes old or older. *)
Theorem claves_de_ventana_permanecen (self self' : AnalizadorGSMAvanzado)
    (imsi : string) (celda : CeldaGSM) (ahora : Z) :
  procesar_medicion_celda minimize self imsi celda ahora = Devuelve self' →
  dom (mediciones_actuales self') = {[imsi]} ∪ dom (mediciones_actuales self) ∧
  mediciones_actuales self' !! imsi =
    Some (filter (es_reciente ahora)
            ((mediciones_actuales self !!! imsi) ++ [celda])).
Proof.
  intros Hp.
  destruct (procesar_medicion_celda_inv minimize self self' imsi celda ahora
              Hp) as (r & _ & ->).
  cbn [mediciones_actuales]. split.
  - now rewrite dom_fmap_L, dom_insert_L.
  - rewrite lookup_fmap, lookup_insert_eq. reflexivity.
Qed.

Lemma celdas_con_ubicacion_directorio_vacio (self : TrianguladorGSM)
    (celdas : list CeldaGSM) :
  estaciones_base self = ∅ → celdas_con_ubicacion self celdas = [].
Proof.
  intros Hdir. unfold celdas_con_ubicacion, _obtener_ubicacion_celda.
  rewrite Hdir. induction celdas as [|c l IH]; [reflexivity|].
  cbn [omap list_omap]. rewrite lookup_empty. exact IH.
Qed.

Lemma triangular_ubicacion_sin_resueltas (self : TrianguladorGSM)
    (mediciones : list CeldaGSM) (ahora : Z) :
  length (celdas_con_ubicacion self mediciones) < 2 →
  triangular_ubicacion minimize self mediciones ahora = Devuelve None.
Proof.
  intros H2. unfold triangular_ubicacion.
  destruct (length mediciones <? 3) eqn:E.
  - apply _estimar_ubicacion_2_celdas_ausente. now right.
  - now rewrite (proj2 (Nat.ltb_lt _ _) H2).
Qed.

Lemma procesar_con_directorio_vacio (self self' : AnalizadorGSMAvanzado)
    (imsi : string) (celda : CeldaGSM) (ahora : Z) :
  estaciones_base (triangulador self) = ∅ →
  procesar_medicion_celda minimize self imsi celda ahora = Devuelve self' →
  estaciones_base (triangulador self') = ∅ ∧
  ubicaciones_estimadas self' = ubicaciones_estimadas self ∧
  mapeador self' = mapeador self.
Proof.
  intros Hdir Hp.
  destruct (procesar_medicion_celda_devuelve minimize self imsi celda ahora)
    as (r & Hr & Hp').
  rewrite Hp' in Hp. injection Hp as <-.
  assert (Hnone : r = None).
  { destruct (2 <=? _); [|now injection Hr].
    rewrite triangular_ubicacion_sin_resueltas in Hr; [now injection Hr|].
    rewrite celdas_con_ubicacion_directorio_vacio; [cbn; lia|exact Hdir]. }
  subst r. cbn. rewrite app_nil_r. auto.
Qed.

(** X21.  With an empty directory of base stations (the state when the
    database file is missing) no run of the engine produces an estimate:
    the stored estimates and the trajectories stay as they were. *)
Theorem directorio_vacio_sin_estimaciones
    (llamadas : list (string * CeldaGSM * Z)) (self : AnalizadorGSMAvanzado) :
  estaciones_base (triangulador self) = ∅ →
  ∃ self',
    procesar_mediciones minimize self llamadas = Devuelve self' ∧
    ubicaciones_estimadas self' = ubicaciones_estimadas self ∧
    mapeador self' = mapeador self.
Proof.
  revert self. induction llamadas as [|[[imsi celda] ahora] resto IH];
    intros self Hdir.
  - exists self. auto.
  - destruct (procesar_medicion_celda_total minimize self imsi celda ahora)
      as [self1 H1].
    destruct (procesar_con_directorio_vacio self self1 imsi celda ahora
                Hdir H1) as (Hdir1 & Hu1 & Hm1).
    destruct (IH self1 Hdir1) as (self' & Hrun & Hu & Hm).
    exists self'. split; [|split; congruence].
    now rewrite (procesar_mediciones_cons minimize self imsi celda ahora resto
                   self1 H1).
Qed.

Lemma filter_es_reciente_compuesto (t1 t2 : Z) (l : list CeldaGSM) :
  (t1 ≤ t2)%Z →
  filter (es_reciente t2) (filter (es_reciente t1) l) =
  filter (es_reciente t2) l.
Proof.
  intros Ht. induction l as [|c l IH]; [reflexivity|].
  destruct (decide (es_reciente t1 c)) as [H1|H1].
  - rewrite (filter_cons_True (es_reciente t1)) by exact H1.
    destruct (decide (es_reciente t2 c)) as [H2|H2].
    + rewrite !(filter_cons_True (es_reciente t2)) by exact H2. now rewrite IH.
    + rewrite !(filter_cons_False (es_reciente t2)) by exact H2. exact IH.
  - rewrite (filter_cons_False (es_reciente t1)) by exact H1.
    rewrite (filter_cons_False (es_reciente t2)); [exact IH|].
    unfold es_reciente in *. lia.
Qed.

(** X22.  A purge at a later time makes an earlier one redundant: purging
    at [t1] and then at [t2], with [t1] not after [t2], leaves the state
    that purging at [t2] alone leaves. *)
Theorem purgas_sucesivas (self : AnalizadorGSMAvanzado) (t1 t2 : Z) :
  (t1 ≤ t2)%Z →
  _limpiar_mediciones_antiguas (_limpiar_mediciones_antiguas self t1) t2 =
  _limpiar_mediciones_antiguas self t2.
Proof.
  intros Ht. unfold _limpiar_mediciones_antiguas.
  cbn [triangulador mapeador mediciones_actuales ubicaciones_estimadas].
  f_equal. rewrite <- map_fmap_compose. apply map_fmap_ext.
  intros k l _. cbn. now apply filter_es_reciente_compuesto.
Qed.

End Marco.

(** The first measurement of a subject, in the initial state. *)
Lemma procesar_no_toca_a_los_demas_witness :
  let m0 := celda_de_prueba "214" (-60) 0 in
  ∃ st1,
    procesar_medicion_celda minimize_sin_iterar
      (analizador_inicial directorio_de_prueba) "X" m0 0 = Devuelve st1 ∧
    estaciones_base (triangulador st1) = directorio_de_prueba.
Proof.
  intros m0.
  destruct (procesar_medicion_celda_total minimize_sin_iterar
              (analizador_inicial directorio_de_prueba) "X" m0 0)
    as [st1 Hp].
  exists st1. split; [exact Hp|].
  exact (proj1 (procesar_no_toca_a_los_demas minimize_sin_iterar _ _ "X" m0
                  0%Z Hp)).
Defined.

(** The first measurement of a subject: its key enters the windows. *)
Lemma claves_de_ventana_permanecen_witness :
  let m0 := celda_de_prueba "214" (-60) 0 in
  ∃ st1,
    procesar_medicion_celda minimize_sin_iterar
      (analizador_inicial directorio_de_prueba) "X" m0 0 = Devuelve st1 ∧
    dom (mediciones_actuales st1) = {[ "X" ]} ∪ ∅.
Proof.
  intros m0.
  destruct (procesar_medicion_celda_total minimize_sin_iterar
              (analizador_inicial directorio_de_prueba) "X" m0 0)
    as [st1 Hp].
  exists st1. split; [exact Hp|].
  rewrite (proj1 (claves_de_ventana_permanecen minimize_sin_iterar _ _ "X" m0
                    0%Z Hp)).
  cbn [analizador_inicial mediciones_actuales]. now rewrite dom_empty_L.
Defined.

(** The three calls of [llamadas_de_prueba] with an empty directory. *)
Lemma directorio_vacio_sin_estimaciones_witness :
  estaciones_base (triangulador (analizador_inicial ∅)) = ∅ ∧
  ∃ self',
    procesar_mediciones minimize_sin_iterar (analizador_inicial ∅)
      llamadas_de_prueba = Devuelve self' ∧
    ubicaciones_estimadas self' = [] ∧
    trayectorias (mapeador self') = ∅.
Proof.
  split; [reflexivity|].
  destruct (directorio_vacio_sin_estimaciones minimize_sin_iterar
              llamadas_de_prueba (analizador_inicial ∅) eq_refl)
    as (self' & Hrun & Hu & Hm).
  exists self'. split; [exact Hrun|]. split; [exact Hu|].
  now rewrite Hm.
Defined.

(** A window with two measurements, purged at 100 s and at 400 s. *)
Lemma purgas_sucesivas_witness :
  let self := {| triangulador := {| estaciones_base := ∅;
                                    historial_mediciones := ∅ |};
                 mapeador := {| trayectorias := ∅ |};
                 mediciones_actuales :=
                   {[ "X" := [celda_de_prueba "214" (-60) 0;
                              celda_de_prueba "215" (-70) 200000000] ]};
                 ubicaciones_estimadas := [] |} in
  (100000000 ≤ 400000000)%Z ∧
  _limpiar_mediciones_antiguas
    (_limpiar_mediciones_antiguas self 100000000) 400000000 =
  _limpiar_mediciones_antiguas self 400000000.
Proof.
  intros self.
  assert (H : (100000000 ≤ 400000000)%Z) by lia.
  split; [exact H|]. exact (purgas_sucesivas self 100000000 400000000 H).
Defined.

(** ** Three measurements of one subject *)

Section Escenario.

Variable minimize :
  (R * R → resultado R) → flotante * flotante → cotas → OptimizeResult.

Lemma ventana_de_sujeto_tras_llamada (m : gmap string (list CeldaGSM))
    (imsi : string) (ventana : list CeldaGSM) (ahora : Z) :
  (filter (es_reciente ahora) <$> <[imsi := ventana]> m) !!! imsi =
  filter (es_reciente ahora) ventana.
Proof. now rewrite ventana_tras_purga, lookup_total_insert_eq. Qed.

Lemma filter_todas_recientes (ahora : Z) (l : list CeldaGSM) :
  Forall (es_reciente ahora) l → filter (es_reciente ahora) l = l.
Proof.
  induction 1 as [|c l Hc _ IH]; [reflexivity|].
  rewrite filter_cons_True by exact Hc. now rewrite IH.
Qed.

Lemma celdas_con_ubicacion_todas (self : TrianguladorGSM)
    (celdas : list CeldaGSM) :
  Forall (λ c, is_Some (_obtener_ubicacion_celda self c)) celdas →
  map fst (celdas_con_ubicacion self celdas) = celdas.
Proof.
  unfold celdas_con_ubicacion.
  induction 1 as [|c l [u Hu] _ IH]; [reflexivity|].
  cbn [omap list_omap]. rewrite Hu. cbn. now rewrite IH.
Qed.

Lemma trayectoria_de_dos (m : MapeadorGSM) (imsi : string)
    (a b : UbicacionEstimada) :
  trayectorias m !!! imsi = [] →
  trayectorias (actualizar_trayectoria (actualizar_trayectoria m imsi a) imsi b)
    !!! imsi = [a; b].
Proof.
  intros H0.
  assert (H1 : trayectorias (actualizar_trayectoria m imsi a) !!! imsi = [a])
    by (rewrite trayectoria_actualizada; rewrite H0; [reflexivity|cbn; lia]).
  rewrite trayectoria_actualizada; rewrite H1; [reflexivity|cbn; lia].
Qed.

(** Three measurements of one subject over the real numbers. *)
Lemma tres_mediciones_forma
    (estaciones : gmap string Ubicacion) (imsi : string)
    (c1 c2 c3 : CeldaGSM) (t1 t2 t3 : Z) :
  is_Some (estaciones !! clave_celda c1) →
  is_Some (estaciones !! clave_celda c2) →
  is_Some (estaciones !! clave_celda c3) →
  es_reciente t1 c1 → es_reciente t2 c1 → es_reciente t2 c2 →
  ∃ self' e2 e3 k,
    procesar_mediciones minimize (analizador_inicial estaciones)
      [(imsi, c1, t1); (imsi, c2, t2); (imsi, c3, t3)] = Devuelve self' ∧
    ubicaciones_estimadas self' = [e2; e3] ∧
    trayectorias (mapeador self') !!! imsi = [e2; e3] ∧
    metodo e2 = "2_CELDAS" ∧ celdas_utilizadas e2 = [c1; c2] ∧
    metodo e3 = "COMBINADO" ∧ 1 ≤ k ≤ 3 ∧
    celdas_utilizadas e3 = concat (replicate k [c1; c2; c3]).
Proof.
  intros H1 H2 H3 Hr11 Hr21 Hr22.
  set (self0 := analizador_inicial estaciones).
  (* first call *)
  destruct (procesar_medicion_celda_devuelve minimize self0 imsi c1 t1)
    as (r1 & Hr1 & Hp1).
  unfold ventana_de_llamada in Hr1, Hp1.
  change (mediciones_actuales self0) with (∅ : gmap string (list CeldaGSM))
    in Hr1, Hp1.
  rewrite ventana_vacia in Hr1, Hp1. cbn [app length Nat.leb] in Hr1.
  injection Hr1 as <-.
  match type of Hp1 with _ = Devuelve ?s => set (self1 := s) in * end.
  assert (Hv1 : mediciones_actuales self1 !!! imsi = [c1]).
  { unfold self1. cbn [mediciones_actuales].
    rewrite ventana_de_sujeto_tras_llamada.
    apply filter_todas_recientes. now repeat constructor. }
  (* second call *)
  destruct (procesar_medicion_celda_devuelve minimize self1 imsi c2 t2)
    as (r2 & Hr2 & Hp2).
  unfold ventana_de_llamada in Hr2, Hp2. rewrite Hv1 in Hr2, Hp2.
  cbn [app length Nat.leb] in Hr2.
  unfold triangular_ubicacion in Hr2. cbn [length Nat.ltb Nat.leb] in Hr2.
  destruct H1 as [u1 H1], H2 as [u2 H2], H3 as [u3 H3].
  rewrite (_estimar_ubicacion_2_celdas_resueltas
             (agregar_medicion_celda (triangulador self1) c2) [c1; c2]
             c1 c2 u1 u2 [] t2) in Hr2;
    [|cbn; lia|now apply celdas_con_ubicacion_dos].
  injection Hr2 as <-.
  match type of Hp2 with _ = Devuelve ?s => set (self2 := s) in * end.
  assert (Hv2 : mediciones_actuales self2 !!! imsi = [c1; c2]).
  { unfold self2. cbn [mediciones_actuales].
    rewrite ventana_de_sujeto_tras_llamada.
    apply filter_todas_recientes. now repeat constructor. }
  (* third call *)
  destruct (procesar_medicion_celda_devuelve minimize self2 imsi c3 t3)
    as (r3 & Hr3 & Hp3).
  unfold ventana_de_llamada in Hr3, Hp3. rewrite Hv2 in Hr3, Hp3.
  cbn [app length Nat.leb] in Hr3.
  set (tri3 := agregar_medicion_celda (triangulador self2) c3) in *.
  assert (Hres : map fst (celdas_con_ubicacion tri3 [c1; c2; c3])
                 = [c1; c2; c3]).
  { apply celdas_con_ubicacion_todas.
    repeat constructor; eexists; eassumption. }
  destruct (triangular_ubicacion_combinada minimize tri3 [c1; c2; c3] t3)
    as (e3 & k & He3 & Hm3 & Hk & Hc3 & _).
  { cbn; lia. }
  { rewrite <- (length_map fst), Hres. cbn; lia. }
  rewrite He3 in Hr3. injection Hr3 as <-. rewrite Hres in Hc3.
  eexists. eexists. exists e3, k.
  split.
  { cbn [procesar_mediciones]. rewrite Hp1. cbn [mbind resultado_bind].
    rewrite Hp2. cbn [mbind resultado_bind]. rewrite Hp3. reflexivity. }
  cbn [ubicaciones_estimadas mapeador].
  split; [reflexivity|]. split.
  { apply trayectoria_de_dos. apply ventana_vacia. }
  cbn [metodo celdas_utilizadas]. auto.
Qed.

(** X23.  From the initial state, three measurements of one subject whose
    cells are in the directory, the first two still recent at the calls
    that follow them: when the three calls return, they give exactly two
    estimates: none at the first call, one of method "2_CELDAS" on the
    first two measurements at the second call, and one of method
    "COMBINADO" on all three at the third call.  These two estimates are
    the stored estimates and the trajectory of the subject, in this
    order. *)
Theorem tres_mediciones_dos_estimaciones
    (estaciones : gmap string Ubicacion) (imsi : string)
    (c1 c2 c3 : CeldaGSM) (t1 t2 t3 : Z) (self' : AnalizadorGSMAvanzado) :
  is_Some (estaciones !! clave_celda c1) →
  is_Some (estaciones !! clave_celda c2) →
  is_Some (estaciones !! clave_celda c3) →
  es_reciente t1 c1 → es_reciente t2 c1 → es_reciente t2 c2 →
  procesar_mediciones minimize (analizador_inicial estaciones)
    [(imsi, c1, t1); (imsi, c2, t2); (imsi, c3, t3)] = Devuelve self' →
  ∃ e2 e3 k,
    ubicaciones_estimadas self' = [e2; e3] ∧
    trayectorias (mapeador self') !!! imsi = [e2; e3] ∧
    metodo e2 = "2_CELDAS" ∧ celdas_utilizadas e2 = [c1; c2] ∧
    metodo e3 = "COMBINADO" ∧ 1 ≤ k ≤ 3 ∧
    celdas_utilizadas e3 = concat (replicate k [c1; c2; c3]).
Proof.
  intros H1 H2 H3 Hr11 Hr21 Hr22 Hrun.
  destruct (tres_mediciones_forma estaciones imsi c1 c2 c3 t1 t2 t3
              H1 H2 H3 Hr11 Hr21 Hr22)
    as (st & e2 & e3 & k & Hst & Hforma).
  rewrite Hst in Hrun. injection Hrun as <-.
  exists e2, e3, k. exact Hforma.
Qed.

End Escenario.

(** Three cells of [directorio_de_tres], observed 10 microseconds
    apart. *)
Lemma tres_mediciones_dos_estimaciones_witness :
  let c1 := celda_de_prueba "214" (-60) 0 in
  let c2 := celda_de_prueba "215" (-70) 10 in
  let c3 := celda_de_prueba "216" (-80) 20 in
  es_reciente 0 c1 ∧ es_reciente 10 c1 ∧ es_reciente 10 c2 ∧
  ∃ self' e2 e3,
    procesar_mediciones minimize_sin_iterar
      (analizador_inicial directorio_de_tres)
      [("X", c1, 0%Z); ("X", c2, 10%Z); ("X", c3, 20%Z)] = Devuelve self' ∧
    ubicaciones_estimadas self' = [e2; e3] ∧
    metodo e2 = "2_CELDAS" ∧ metodo e3 = "COMBINADO".
Proof.
  intros c1 c2 c3.
  assert (Hr1 : es_reciente 0 c1) by (unfold es_reciente, cinco_minutos; cbn; lia).
  assert (Hr2 : es_reciente 10 c1) by (unfold es_reciente, cinco_minutos; cbn; lia).
  assert (Hr3 : es_reciente 10 c2) by (unfold es_reciente, cinco_minutos; cbn; lia).
  split; [exact Hr1|]. split; [exact Hr2|]. split; [exact Hr3|].
  destruct (procesar_mediciones_total minimize_sin_iterar
              [("X", c1, 0%Z); ("X", c2, 10%Z); ("X", c3, 20%Z)]
              (analizador_inicial directorio_de_tres)) as [self' Hrun].
  destruct (tres_mediciones_dos_estimaciones minimize_sin_iterar
              directorio_de_tres "X" c1 c2 c3 0 10 20 self')
    as (e2 & e3 & k & Hu & _ & Hm2 & _ & Hm3 & _);
    try assumption.
  - eexists. unfold directorio_de_tres. cbn. apply lookup_insert_eq.
  - eexists. unfold directorio_de_tres. cbn.
    rewrite lookup_insert_ne by discriminate. apply lookup_insert_eq.
  - eexists. unfold directorio_de_tres. cbn.
    rewrite !lookup_insert_ne by discriminate. apply lookup_singleton_eq.
  - exists self', e2, e3. auto.
Defined.

(** ** The reports *)

Section Reportes.
#[local] Open Scope R_scope.

Lemma intensidad_acotada (p : R) :
  exists i,
    max_0 <$> fl_sub (Some 1) (fl_div (Some p) (Some 10)) = Some i /\
    0 <= i /\ (0 <= p -> i <= 1) /\ (i = 0 <-> 10 <= p) /\
    (p < 10 -> i = 1 - p / 10).
Proof.
  cbn. destruct (Req_dec_T 10 0) as [E|_]; [lra|]. cbn.
  unfold max_0. destruct (Rlt_dec 0 (1 - p / 10)) as [Hlt|Hge];
    eexists; (split; [reflexivity|]); repeat split; intros; lra.
Qed.

(** X24.  [generar_mapa_heatmap] makes one feature per estimate.  For a
    finite precision [p] in km the intensity of the feature is never
    negative, is at most 1 when [p] is not negative, is 0 exactly when [p]
    is 10 or more, and is [1 - p / 10] below that. *)
Theorem intensidad_del_mapa (ubicaciones : list UbicacionEstimada) :
  length (generar_mapa_heatmap ubicaciones) = length ubicaciones /\
  Forall (fun f =>
            forall p, pc_precision f = Some p ->
              exists i, pc_intensity f = Some i /\
                0 <= i /\ (0 <= p -> i <= 1) /\ (i = 0 <-> 10 <= p) /\
                (p < 10 -> i = 1 - p / 10))
         (generar_mapa_heatmap ubicaciones).
Proof.
  unfold generar_mapa_heatmap. split; [apply length_map|].
  apply Forall_map, Forall_forall. intros u _ p.
  cbn [pc_intensity pc_precision]. intros ->. apply intensidad_acotada.
Qed.

End Reportes.

Section ReportesEstado.

Lemma metodos_tras_estimaciones (us : list UbicacionEstimada) :
  ∀ (m0 : gmap string Z) (m : string),
    foldl (λ m u, <[metodo u := 1%Z]> m) m0 us !! m =
    if decide (Exists (λ u, metodo u = m) us) then Some 1%Z else m0 !! m.
Proof.
  induction us as [|u us IH]; intros m0 m.
  - cbn. destruct (decide _) as [H|_]; [now apply Exists_nil in H|reflexivity].
  - cbn [foldl]. rewrite IH.
    destruct (decide (Exists _ us)) as [Hex|Hno].
    + rewrite decide_True; [reflexivity|now apply Exists_cons_tl].
    + destruct (decide (metodo u = m)) as [Hm|Hm].
      * rewrite decide_True by now apply Exists_cons_hd.
        rewrite <- Hm. apply lookup_insert_eq.
      * rewrite lookup_insert_ne by exact Hm.
        rewrite decide_False; [reflexivity|].
        intros [?|?]%Exists_cons; contradiction.
Qed.

(** X25.  The entry [metodos_utilizados] of the report does not count: it
    maps a method to 1 exactly when some stored estimate has this method,
    and no method has any other value, however many estimates used it. *)
Theorem metodos_del_reporte (self : AnalizadorGSMAvanzado) (ahora : Z)
    (m : string) :
  let metodos := metodos_utilizados (generar_reportes_ubicacion self ahora) in
  (metodos !! m = Some 1%Z ↔
   ∃ u, u ∈ ubicaciones_estimadas self ∧ metodo u = m) ∧
  (∀ v, metodos !! m = Some v → v = 1%Z).
Proof.
  intros metodos. unfold metodos. cbn [generar_reportes_ubicacion
                                       metodos_utilizados].
  rewrite metodos_tras_estimaciones, lookup_empty.
  destruct (decide _) as [Hex|Hno].
  - split; [|now intros v [= <-]].
    split; [|reflexivity]. intros _. now apply Exists_exists in Hex.
  - split; [|discriminate].
    split; [discriminate|]. intros H. exfalso. apply Hno.
    now apply Exists_exists.
Qed.




(** X27.  [generar_trayectoria_imsi] returns the empty dict exactly for a
    subject without a trajectory.  Otherwise the features are one point per
    entry of the trajectory, in order, the point of entry [i] carrying the
    order number [i], followed, when there is more than one entry, by one
    line whose coordinates are those of the points and whose [num_puntos]
    is the number of entries. *)
Theorem trayectoria_exportada (self : MapeadorGSM) (imsi : string) :
  match generar_trayectoria_imsi self imsi with
  | None => trayectorias self !! imsi = None
  | Some features =>
      ∃ trayectoria,
        trayectorias self !! imsi = Some trayectoria ∧
        length features =
          length trayectoria + (if 1 <? length trayectoria then 1 else 0) ∧
        (∀ i, i < length trayectoria →
              ∃ u, trayectoria !! i = Some u ∧
                   features !! i =
                     Some (PuntoTrayectoria (longitude u, latitude u)
                             (timestamp u) (precision u) i)) ∧
        (1 < length trayectoria →
         features !! length trayectoria =
           Some (LineaTrayectoria
                   (map (λ u, (longitude u, latitude u)) trayectoria)
                   imsi (length trayectoria)))
  end.
Proof.
  unfold generar_trayectoria_imsi.
  destruct (trayectorias self !! imsi) as [tr|]; [|reflexivity].
  exists tr. split; [reflexivity|]. split.
  { rewrite length_app, length_imap. destruct (1 <? length tr); reflexivity. }
  split.
  - intros i Hi. destruct (lookup_lt_is_Some_2 tr i Hi) as [u Hu].
    exists u. split; [exact Hu|].
    rewrite lookup_app_l by (rewrite length_imap; exact Hi).
    rewrite list_lookup_imap, Hu. reflexivity.
  - intros H1. rewrite (proj2 (Nat.ltb_lt _ _) H1).
    rewrite lookup_app_r by (rewrite length_imap; lia).
    rewrite length_imap, Nat.sub_diag, length_map. reflexivity.
Qed.

End ReportesEstado.

(** ** The cell key *)

Section Claves.

Lemma campo_separado (s1 s2 r1 r2 : string) :
  sin_guion s1 = true → sin_guion s2 = true →
  s1 +:+ "-" +:+ r1 = s2 +:+ "-" +:+ r2 → s1 = s2 ∧ r1 = r2.
Proof.
  revert s2. induction s1 as [|a s1 IH]; intros [|b s2] H1 H2 He; cbn in *.
  - now injection He.
  - injection He as <- _. cbn in H2. discriminate.
  - injection He as -> _. cbn in H1. discriminate.
  - injection He as <- He.
    apply andb_prop in H1 as [_ H1]. apply andb_prop in H2 as [_ H2].
    destruct (IH s2 H1 H2 He) as [-> ->]. now split.
Qed.

(** X28.  The cell key tells cells apart when the network codes hold no
    hyphen: for two cells whose [mcc], [mnc] and [lac] are free of "-",
    the keys are equal exactly when [mcc], [mnc], [lac] and [cell_id] are.
    Without that condition they need not: two cells with different [mcc]
    and [mnc] can have one key, and then they share the directory entry
    and the history. *)
Theorem clave_celda_inyectiva (c c' : CeldaGSM) :
  sin_guion (mcc c) = true → sin_guion (mnc c) = true →
  sin_guion (lac c) = true →
  sin_guion (mcc c') = true → sin_guion (mnc c') = true →
  sin_guion (lac c') = true →
  (clave_celda c = clave_celda c' ↔
   mcc c = mcc c' ∧ mnc c = mnc c' ∧ lac c = lac c' ∧ cell_id c = cell_id c') ∧
  ∃ d d' : CeldaGSM,
    mcc d ≠ mcc d' ∧ mnc d ≠ mnc d' ∧ clave_celda d = clave_celda d' ∧
    ∀ self : TrianguladorGSM,
      _obtener_ubicacion_celda self d = _obtener_ubicacion_celda self d' ∧
      d ∈ historial_mediciones (agregar_medicion_celda self d)
            !!! clave_celda d'.
Proof.
  intros H1 H2 H3 H1' H2' H3'. split.
  - unfold clave_celda. split.
    + intros He.
      apply campo_separado in He as [Hm He]; [|assumption..].
      apply campo_separado in He as [Hn He]; [|assumption..].
      apply campo_separado in He as [Hl He]; [|assumption..].
      auto.
    + now intros (-> & -> & -> & ->).
  - exists (celda_con_guion "214-0" "7"), (celda_con_guion "214" "0-7").
    split; [discriminate|]. split; [discriminate|].
    split; [reflexivity|]. intros self. split; [reflexivity|].
    change (clave_celda (celda_con_guion "214" "0-7"))
      with (clave_celda (celda_con_guion "214-0" "7")).
    rewrite historial_agregar_misma. cbv zeta.
    destruct (50 <? _) eqn:E; [|apply elem_of_app; right; apply list_elem_of_here].
    apply Nat.ltb_lt in E. rewrite length_app in E. cbn [length] in E.
    destruct (historial_mediciones self !!! _) as [|x l]; [cbn in E; lia|].
    cbn. apply elem_of_app. right. apply list_elem_of_here.
Qed.

(** Two cells that differ in [mcc] only. *)
Lemma clave_celda_inyectiva_witness :
  let c := celda_de_prueba "214" (-70) 0 in
  let c' := celda_de_prueba "310" (-70) 0 in
  sin_guion (mcc c) = true ∧ sin_guion (mcc c') = true ∧
  (clave_celda c = clave_celda c' ↔
   mcc c = mcc c' ∧ mnc c = mnc c' ∧ lac c = lac c' ∧ cell_id c = cell_id c').
Proof.
  intros c c'. split; [reflexivity|]. split; [reflexivity|].
  exact (proj1 (clave_celda_inyectiva c c'
                  eq_refl eq_refl eq_refl eq_refl eq_refl eq_refl)).
Defined.

End Claves.
